(** * X86EvexToVex: compressing EVEX-encoded instructions to their VEX form

    A shallow embedding of [lib/Target/X86/X86EvexToVex.cpp] and the
    properties of the pass stated in the specification.

    Conventions of the embedding.
    - Unsigned and 64-bit quantities are [Z]; the bit operations of the
      source are [Z.land], [Z.lor] and [Z.shiftl].
    - A [MachineInstr&] that a function mutates is passed in and returned.
    - [assert] is the macro of <cassert>: it checks its condition unless the
      build defines NDEBUG.  A failed assertion, and an operand accessor used
      outside its precondition, end the computation with a [Fault].
    - The enumerators of [X86II::] and [X86::], the generated tables and the
      instruction-info table come from headers that are not part of the
      translated file; they are parameters of the development. *)

From Stdlib Require Import ZArith Lia.
From stdpp Require Import base option list gmap strings.

Local Open Scope Z_scope.

(** ** Results of fallible code *)

Inductive Fault : Type :=
  | AssertionFailed (msg : string)   (* assert(...) of the translated file *)
  | OperandOutOfRange                (* MachineInstr::getOperand past the end *)
  | WrongOperandAccessor             (* getImm / setImm on a non-immediate *)
  | NullInstrInfo.                   (* TII used before it was assigned *)

Inductive result (A : Type) : Type :=
  | Ok (a : A)
  | Abort (f : Fault).
Arguments Ok {A} a.
Arguments Abort {A} f.

#[global] Instance result_ret : MRet result := λ A a, Ok a.
#[global] Instance result_bind : MBind result := λ A B k r,
  match r with
  | Ok a => k a
  | Abort f => Abort f
  end.

(** ** Enumerators taken as parameters *)

Module X86II.
(** Bits of [MCInstrDesc::TSFlags] (MCTargetDesc/X86BaseInfo.h). *)
Class Flags : Type := {
  EncodingMask : Z;
  EVEX : Z;
  EVEX_K : Z;
  EVEX_B : Z;
  EVEX_L2 : Z;
  VEX_L : Z
}.
End X86II.

Module X86.
(** Register and opcode enumerators (generated X86 headers) and the
    comment flag of InstPrinter/X86InstComments.h. *)
Class Enum : Type := {
  XMM16 : Z; XMM31 : Z;
  YMM16 : Z; YMM31 : Z;
  ZMM0 : Z;  ZMM31 : Z;
  VALIGNDZ128rri : Z; VALIGNDZ128rmi : Z;
  VALIGNQZ128rri : Z; VALIGNQZ128rmi : Z;
  VPALIGNRrri : Z; VPALIGNRrmi : Z;
  VSHUFF32X4Z256rmi : Z; VSHUFF32X4Z256rri : Z;
  VSHUFF64X2Z256rmi : Z; VSHUFF64X2Z256rri : Z;
  VSHUFI32X4Z256rmi : Z; VSHUFI32X4Z256rri : Z;
  VSHUFI64X2Z256rmi : Z; VSHUFI64X2Z256rri : Z;
  VPERM2F128rr : Z; VPERM2I128rr : Z;
  VPERM2F128rm : Z; VPERM2I128rm : Z;
  VRNDSCALEPDZ128rri : Z; VRNDSCALEPDZ128rmi : Z;
  VRNDSCALEPSZ128rri : Z; VRNDSCALEPSZ128rmi : Z;
  VRNDSCALEPDZ256rri : Z; VRNDSCALEPDZ256rmi : Z;
  VRNDSCALEPSZ256rri : Z; VRNDSCALEPSZ256rmi : Z;
  VRNDSCALESDZr : Z; VRNDSCALESDZm : Z;
  VRNDSCALESSZr : Z; VRNDSCALESSZm : Z;
  VRNDSCALESDZr_Int : Z; VRNDSCALESDZm_Int : Z;
  VRNDSCALESSZr_Int : Z; VRNDSCALESSZm_Int : Z;
  AC_EVEX_2_VEX : Z
}.
End X86.

(** Whether the build defines NDEBUG (assertions compiled out). *)
Class Build : Type := { NDEBUG : bool }.

(** ** Data model *)

(** The operand kinds the pass distinguishes: a register, an immediate
    (an [int64_t]) and everything else. *)
Inductive MachineOperand : Type :=
  | MO_Register (RegNo : Z)
  | MO_Immediate (ImmVal : Z)
  | MO_Other.

(** The fields of [MCInstrDesc] the pass reads. *)
Record MCInstrDesc : Type := {
  Opcode : Z;
  NumOperands : nat;
  TSFlags : Z
}.

Record MachineInstr : Type := {
  MCID : MCInstrDesc;
  Operands : list MachineOperand;
  AsmPrinterFlags : Z
}.

(** [TII->get(Opcode)]: the descriptor table. *)
Record X86InstrInfo : Type := { get : Z → MCInstrDesc }.

Record X86Subtarget : Type := {
  hasAVX512 : bool;
  getInstrInfo : X86InstrInfo
}.

Definition MachineBasicBlock : Type := list MachineInstr.

Record MachineFunction : Type := {
  getSubtarget : X86Subtarget;
  Blocks : list MachineBasicBlock
}.

Record X86EvexToVexCompressTableEntry : Type := {
  EvexOpcode : Z;
  VexOpcode : Z
}.

(** [DenseMap<unsigned, uint16_t>]. *)
Abbreviation EvexToVexTableType := (gmap Z Z).

Record EvexToVexInstPass : Type := {
  EvexToVex128Table : EvexToVexTableType;
  EvexToVex256Table : EvexToVexTableType;
  TII : option X86InstrInfo
}.

(** ** Accessors of MachineOperand and MachineInstr *)

Definition isReg (MO : MachineOperand) : bool :=
  match MO with MO_Register _ => true | _ => false end.

Definition isImm (MO : MachineOperand) : bool :=
  match MO with MO_Immediate _ => true | _ => false end.

Definition getReg (MO : MachineOperand) : result Z :=
  match MO with
  | MO_Register r => Ok r
  | _ => Abort WrongOperandAccessor
  end.

Definition getImm (MO : MachineOperand) : result Z :=
  match MO with
  | MO_Immediate v => Ok v
  | _ => Abort WrongOperandAccessor
  end.

Definition getDesc (MI : MachineInstr) : MCInstrDesc := MCID MI.

Definition getOpcode (MI : MachineInstr) : Z := Opcode (MCID MI).

Definition getNumOperands (MI : MachineInstr) : nat := length (Operands MI).

(** Modelled from the spec: the accessor "count of explicit operands" of
    MachineInstr (its header is not part of the translated file); the
    explicit operands are the leading ones the descriptor declares. *)
Definition getNumExplicitOperands (MI : MachineInstr) : nat :=
  NumOperands (MCID MI).

Definition explicit_operands (MI : MachineInstr) : list MachineOperand :=
  take (getNumExplicitOperands MI) (Operands MI).

(** Arithmetic on [unsigned]. *)
Definition wrap32 (z : Z) : Z := z mod 2 ^ 32.

(** A value converted to [uint16_t]. *)
Definition uint16 (z : Z) : Z := z mod 2 ^ 16.

(** Arithmetic on [int64_t]; an overflow, undefined in C++, is taken to
    wrap around in two's complement. *)
Definition wrap64s (z : Z) : Z := (z + 2 ^ 63) mod 2 ^ 64 - 2 ^ 63.

(** The index expression [MI.getNumExplicitOperands()-1]. *)
Definition lastExplicitIdx (MI : MachineInstr) : Z :=
  wrap32 (Z.of_nat (getNumExplicitOperands MI) - 1).

Definition getOperand (MI : MachineInstr) (i : Z) : result MachineOperand :=
  if (0 <=? i) && (i <? Z.of_nat (getNumOperands MI)) then
    match Operands MI !! Z.to_nat i with
    | Some MO => Ok MO
    | None => Abort OperandOutOfRange
    end
  else Abort OperandOutOfRange.

(** The instruction with operand [i] replaced. *)
Definition withOperand (MI : MachineInstr) (i : Z) (MO : MachineOperand)
    : MachineInstr :=
  {| MCID := MCID MI;
     Operands := <[Z.to_nat i := MO]> (Operands MI);
     AsmPrinterFlags := AsmPrinterFlags MI |}.

(** [MI.getOperand(i).setImm(v)]: a write through the operand reference. *)
Definition setImm (MI : MachineInstr) (i : Z) (v : Z) : result MachineInstr :=
  MO ← getOperand MI i;
  if isImm MO then Ok (withOperand MI i (MO_Immediate v))
  else Abort WrongOperandAccessor.

Definition setDesc (MI : MachineInstr) (D : MCInstrDesc) : MachineInstr :=
  {| MCID := D; Operands := Operands MI; AsmPrinterFlags := AsmPrinterFlags MI |}.

(** [AsmPrinterFlags |= (uint8_t)Flag]. *)
Definition setAsmPrinterFlag (MI : MachineInstr) (Flag : Z) : MachineInstr :=
  {| MCID := MCID MI; Operands := Operands MI;
     AsmPrinterFlags := Z.lor (AsmPrinterFlags MI) (Flag mod 256) |}.

(** A value of an integer type used as a condition. *)
Definition truthy (z : Z) : bool := negb (z =? 0).

(** ** The pass *)

Section Model.
Context {tsflags : X86II.Flags} {x86 : X86.Enum} {build : Build}.

Definition assert (cond : bool) (msg : string) : result unit :=
  if NDEBUG || cond then Ok () else Abort (AssertionFailed msg).

(** [EvexToVexTable[EvexOp] = VexOp], both of type [uint16_t]. *)
Definition AddTableEntry (EvexToVexTable : EvexToVexTableType)
    (EvexOp VexOp : Z) : EvexToVexTableType :=
  <[uint16 EvexOp := uint16 VexOp]> EvexToVexTable.

(** The loop of the constructor over one generated table. *)
Definition fillTable (CompressTable : list X86EvexToVexCompressTableEntry)
    : EvexToVexTableType :=
  foldl (λ T Entry, AddTableEntry T (EvexOpcode Entry) (VexOpcode Entry))
        ∅ CompressTable.

(** The constructor: both maps filled, [TII] not yet assigned. *)
Definition newEvexToVexInstPass
    (X86EvexToVex128CompressTable X86EvexToVex256CompressTable
       : list X86EvexToVexCompressTableEntry) : EvexToVexInstPass :=
  {| EvexToVex128Table := fillTable X86EvexToVex128CompressTable;
     EvexToVex256Table := fillTable X86EvexToVex256CompressTable;
     TII := None |}.

Definition isHiRegIdx (Reg : Z) : bool :=
  if (X86.XMM16 <=? Reg) && (Reg <=? X86.XMM31) then true
  else if (X86.YMM16 <=? Reg) && (Reg <=? X86.YMM31) then true
  else false.

Definition isZMMReg (Reg : Z) : bool :=
  (X86.ZMM0 <=? Reg) && (Reg <=? X86.ZMM31).

(** The loop of [usesExtendedRegister] over [MI.explicit_operands()]. *)
Fixpoint scanOperands (MOs : list MachineOperand) : result bool :=
  match MOs with
  | [] => Ok false
  | MO :: rest =>
      if negb (isReg MO) then scanOperands rest
      else
        Reg ← getReg MO;
        _ ← assert (negb (isZMMReg Reg))
              "ZMM instructions should not be in the EVEX->VEX tables";
        if isHiRegIdx Reg then Ok true else scanOperands rest
  end.

Definition usesExtendedRegister (MI : MachineInstr) : result bool :=
  scanOperands (explicit_operands MI).

(** The three groups of case labels of the switch. *)
Definition VALIGN_cases : list Z :=
  [X86.VALIGNDZ128rri; X86.VALIGNDZ128rmi;
   X86.VALIGNQZ128rri; X86.VALIGNQZ128rmi].

Definition VSHUF_cases : list Z :=
  [X86.VSHUFF32X4Z256rmi; X86.VSHUFF32X4Z256rri;
   X86.VSHUFF64X2Z256rmi; X86.VSHUFF64X2Z256rri;
   X86.VSHUFI32X4Z256rmi; X86.VSHUFI32X4Z256rri;
   X86.VSHUFI64X2Z256rmi; X86.VSHUFI64X2Z256rri].

Definition VRNDSCALE_cases : list Z :=
  [X86.VRNDSCALEPDZ128rri; X86.VRNDSCALEPDZ128rmi;
   X86.VRNDSCALEPSZ128rri; X86.VRNDSCALEPSZ128rmi;
   X86.VRNDSCALEPDZ256rri; X86.VRNDSCALEPDZ256rmi;
   X86.VRNDSCALEPSZ256rri; X86.VRNDSCALEPSZ256rmi;
   X86.VRNDSCALESDZr; X86.VRNDSCALESDZm;
   X86.VRNDSCALESSZr; X86.VRNDSCALESSZm;
   X86.VRNDSCALESDZr_Int; X86.VRNDSCALESDZm_Int;
   X86.VRNDSCALESSZr_Int; X86.VRNDSCALESSZm_Int].

Definition case_labels : list Z :=
  VALIGN_cases ++ VSHUF_cases ++ VRNDSCALE_cases.

Definition isCase (Opc : Z) (labels : list Z) : bool :=
  bool_decide (Opc ∈ labels).

(** Which group of case labels the switch on [Opc] selects.  A C++ switch
    has pairwise distinct labels, so the order of the tests is immaterial. *)
Inductive SwitchCase : Type :=
  | CaseVALIGN
  | CaseVSHUF
  | CaseVRNDSCALE
  | CaseDefault.

Definition switchCase (Opc : Z) : SwitchCase :=
  if isCase Opc VALIGN_cases then CaseVALIGN
  else if isCase Opc VSHUF_cases then CaseVSHUF
  else if isCase Opc VRNDSCALE_cases then CaseVRNDSCALE
  else CaseDefault.

(** Set bit 5, move bit 1 to bit 4, copy bit 0. *)
Definition laneSelectImm (ImmVal : Z) : Z :=
  Z.lor (Z.lor 0x20 (Z.shiftl (Z.land ImmVal 2) 3)) (Z.land ImmVal 1).

(** Do any custom cleanup needed to finalize the conversion. *)
Definition performCustomAdjustments (MI : MachineInstr) (NewOpc : Z)
    : result (bool * MachineInstr) :=
  let Opc := getOpcode MI in
  match switchCase Opc with
  | CaseVALIGN =>
      _ ← assert ((NewOpc =? X86.VPALIGNRrri) || (NewOpc =? X86.VPALIGNRrmi))
            "Unexpected new opcode!";
      let Scale :=
        if (Opc =? X86.VALIGNQZ128rri) || (Opc =? X86.VALIGNQZ128rmi)
        then 8 else 4 in
      Imm ← getOperand MI (lastExplicitIdx MI);
      ImmVal ← getImm Imm;
      MI ← setImm MI (lastExplicitIdx MI) (wrap64s (ImmVal * Scale));
      Ok (true, MI)
  | CaseVSHUF =>
      _ ← assert ((NewOpc =? X86.VPERM2F128rr) || (NewOpc =? X86.VPERM2I128rr)
                  || (NewOpc =? X86.VPERM2F128rm)
                  || (NewOpc =? X86.VPERM2I128rm))
            "Unexpected new opcode!";
      Imm ← getOperand MI (lastExplicitIdx MI);
      ImmVal ← getImm Imm;
      MI ← setImm MI (lastExplicitIdx MI) (laneSelectImm ImmVal);
      Ok (true, MI)
  | CaseVRNDSCALE =>
      Imm ← getOperand MI (lastExplicitIdx MI);
      ImmVal ← getImm Imm;
      (* Ensure that only bits 3:0 of the immediate are used. *)
      if negb (Z.land ImmVal 0xf =? ImmVal) then Ok (false, MI)
      else Ok (true, MI)
  | CaseDefault => Ok (true, MI)
  end.

(** For EVEX instructions that can be encoded using VEX encoding replace
    them by the VEX encoding in order to reduce size. *)
Definition CompressEvexToVexImpl (P : EvexToVexInstPass) (MI : MachineInstr)
    : result (bool * MachineInstr) :=
  let Desc := getDesc MI in
  (* Check for EVEX instructions only. *)
  if negb (Z.land (TSFlags Desc) X86II.EncodingMask =? X86II.EVEX)
  then Ok (false, MI) else
  (* Mask or broadcast need the EVEX prefix. *)
  if truthy (Z.land (TSFlags Desc) (Z.lor X86II.EVEX_K X86II.EVEX_B))
  then Ok (false, MI) else
  (* EVEX_V512 instr: bit EVEX_L2 = 1; bit VEX_L = 0. *)
  if truthy (Z.land (TSFlags Desc) X86II.EVEX_L2)
     && negb (truthy (Z.land (TSFlags Desc) X86II.VEX_L))
  then Ok (false, MI) else
  let IsEVEX_V128 :=
    negb (truthy (Z.land (TSFlags Desc) X86II.EVEX_L2))
    && negb (truthy (Z.land (TSFlags Desc) X86II.VEX_L)) in
  let IsEVEX_V256 :=
    negb (truthy (Z.land (TSFlags Desc) X86II.EVEX_L2))
    && truthy (Z.land (TSFlags Desc) X86II.VEX_L) in
  let NewOpc :=
    if IsEVEX_V256 then
      match EvexToVex256Table P !! getOpcode MI with
      | Some VexOp => VexOp
      | None => 0
      end
    else if IsEVEX_V128 then
      match EvexToVex128Table P !! getOpcode MI with
      | Some VexOp => VexOp
      | None => 0
      end
    else 0 in
  if negb (truthy NewOpc) then Ok (false, MI) else
  ext ← usesExtendedRegister MI;
  if (ext : bool) then Ok (false, MI) else
  '(adjusted, MI) ← performCustomAdjustments MI NewOpc;
  if negb adjusted then Ok (false, MI) else
  match TII P with
  | None => Abort NullInstrInfo
  | Some tii =>
      let MI := setDesc MI (get tii NewOpc) in
      let MI := setAsmPrinterFlag MI X86.AC_EVEX_2_VEX in
      Ok (true, MI)
  end.

(** The inner loop: [Changed |= CompressEvexToVexImpl(MI)] over a block. *)
Fixpoint traverseBlock (P : EvexToVexInstPass) (MBB : MachineBasicBlock)
    (Changed : bool) : result (bool * MachineBasicBlock) :=
  match MBB with
  | [] => Ok (Changed, [])
  | MI :: rest =>
      '(c, MI') ← CompressEvexToVexImpl P MI;
      '(Changed', rest') ← traverseBlock P rest (Changed || c);
      Ok (Changed', MI' :: rest')
  end.

(** The outer loop over the basic blocks of the function. *)
Fixpoint traverseBlocks (P : EvexToVexInstPass)
    (MBBs : list MachineBasicBlock) (Changed : bool)
    : result (bool * list MachineBasicBlock) :=
  match MBBs with
  | [] => Ok (Changed, [])
  | MBB :: rest =>
      '(Changed', MBB') ← traverseBlock P MBB Changed;
      '(Changed'', rest') ← traverseBlocks P rest Changed';
      Ok (Changed'', MBB' :: rest')
  end.

(** The assignment [TII = ...getInstrInfo()] to the member of the pass. *)
Definition setTII (P : EvexToVexInstPass) (tii : X86InstrInfo)
    : EvexToVexInstPass :=
  {| EvexToVex128Table := EvexToVex128Table P;
     EvexToVex256Table := EvexToVex256Table P;
     TII := Some tii |}.

(** [runOnMachineFunction] assigns the member [TII], so the pass object
    is threaded through, next to the result and the function. *)
Definition runOnMachineFunction (P : EvexToVexInstPass) (MF : MachineFunction)
    : EvexToVexInstPass * result (bool * MachineFunction) :=
  let P := setTII P (getInstrInfo (getSubtarget MF)) in
  let ST := getSubtarget MF in
  if negb (hasAVX512 ST) then (P, Ok (false, MF))
  else
    (P, '(Changed, MBBs) ← traverseBlocks P (Blocks MF) false;
        Ok (Changed, {| getSubtarget := ST; Blocks := MBBs |})).

(** ** Vocabulary of the specification

    The descriptor fields and stages the specification names, read off the
    same bits the code reads. *)

Definition isEVEXEncoded (MI : MachineInstr) : bool :=
  Z.land (TSFlags (getDesc MI)) X86II.EncodingMask =? X86II.EVEX.

Definition hasMask (MI : MachineInstr) : bool :=
  truthy (Z.land (TSFlags (getDesc MI)) X86II.EVEX_K).

Definition hasBroadcast (MI : MachineInstr) : bool :=
  truthy (Z.land (TSFlags (getDesc MI)) X86II.EVEX_B).

Definition bitEVEX_L2 (MI : MachineInstr) : bool :=
  truthy (Z.land (TSFlags (getDesc MI)) X86II.EVEX_L2).

Definition bitVEX_L (MI : MachineInstr) : bool :=
  truthy (Z.land (TSFlags (getDesc MI)) X86II.VEX_L).

Inductive WidthClass : Type :=
  | W128        (* EVEX_L2 = 0, VEX_L = 0 *)
  | W256        (* EVEX_L2 = 0, VEX_L = 1 *)
  | W512        (* EVEX_L2 = 1, VEX_L = 0 *)
  | WUnresolved (* EVEX_L2 = 1, VEX_L = 1 *).

Definition widthClass (MI : MachineInstr) : WidthClass :=
  match bitEVEX_L2 MI, bitVEX_L MI with
  | false, false => W128
  | false, true => W256
  | true, false => W512
  | true, true => WUnresolved
  end.

(** The table entry the width class selects for the instruction, if any. *)
Definition selectedEntry (P : EvexToVexInstPass) (MI : MachineInstr)
    : option Z :=
  match widthClass MI with
  | W128 => EvexToVex128Table P !! getOpcode MI
  | W256 => EvexToVex256Table P !! getOpcode MI
  | W512 | WUnresolved => None
  end.

(** The short-form opcode with which the instruction reaches the
    register-constraint stage, if it does. *)
Definition candidate (P : EvexToVexInstPass) (MI : MachineInstr) : option Z :=
  if isEVEXEncoded MI && negb (hasMask MI || hasBroadcast MI) then
    match selectedEntry P MI with
    | Some NewOpc => if NewOpc =? 0 then None else Some NewOpc
    | None => None
    end
  else None.

(** What remains of [CompressEvexToVexImpl] once [NewOpc] is known to be
    nonzero: register check, immediate adjustment, commit. *)
Definition afterLookup (P : EvexToVexInstPass) (MI : MachineInstr)
    (NewOpc : Z) : result (bool * MachineInstr) :=
  ext ← usesExtendedRegister MI;
  if (ext : bool) then Ok (false, MI) else
  '(adjusted, MI) ← performCustomAdjustments MI NewOpc;
  if negb adjusted then Ok (false, MI) else
  match TII P with
  | None => Abort NullInstrInfo
  | Some tii =>
      Ok (true, setAsmPrinterFlag (setDesc MI (get tii NewOpc))
                                  X86.AC_EVEX_2_VEX)
  end.

(** The operand is a register accepted by [sel]. *)
Definition regSel (sel : Z → bool) (MO : MachineOperand) : bool :=
  match MO with MO_Register r => sel r | _ => false end.

(** Some explicit operand names a register accepted by [sel]. *)
Definition namesRegister (sel : Z → bool) (MI : MachineInstr) : bool :=
  existsb (regSel sel) (explicit_operands MI).

(** The message of the assertion in [usesExtendedRegister]. *)
Definition assertMsg : string :=
  "ZMM instructions should not be in the EVEX->VEX tables".

(** The last explicit operand is the immediate [v]. *)
Definition lastImmediate (MI : MachineInstr) (v : Z) : Prop :=
  getOperand MI (lastExplicitIdx MI) = Ok (MO_Immediate v).

(** The committed form of a rewritten instruction. *)
Definition committed (MI : MachineInstr) (D : MCInstrDesc) : MachineInstr :=
  setAsmPrinterFlag (setDesc MI D) X86.AC_EVEX_2_VEX.

(** The stages at which a compression attempt can fail. *)
Inductive FailsAt (P : EvexToVexInstPass) (MI : MachineInstr) : Prop :=
  | WrongEncodingClass :
      isEVEXEncoded MI = false → FailsAt P MI
  | MaskFlagSet :
      hasMask MI = true → FailsAt P MI
  | BroadcastFlagSet :
      hasBroadcast MI = true → FailsAt P MI
  | WrongWidthClass :
      widthClass MI = W512 ∨ widthClass MI = WUnresolved → FailsAt P MI
  | TableMiss :
      selectedEntry P MI = None → FailsAt P MI
  | ExtendedRegisterPresent :
      usesExtendedRegister MI = Ok true → FailsAt P MI
  | ImmediateRangeFailure NewOpc v :
      candidate P MI = Some NewOpc →
      usesExtendedRegister MI = Ok false →
      switchCase (getOpcode MI) = CaseVRNDSCALE →
      lastImmediate MI v →
      Z.land v 0xf ≠ v →
      FailsAt P MI.

(** The instructions of a function, block after block. *)
Definition instructions (MF : MachineFunction) : list MachineInstr :=
  concat (Blocks MF).

(** Table invariant: no instruction of the function that names a ZMM
    register has its opcode in either partition. *)
Definition tablesHoldNoZMMInstruction (P : EvexToVexInstPass)
    (MF : MachineFunction) : Prop :=
  ∀ MI, MI ∈ instructions MF →
        namesRegister isZMMReg MI = true →
        EvexToVex128Table P !! getOpcode MI = None ∧
        EvexToVex256Table P !! getOpcode MI = None.

(** Table invariant: the short-form opcodes of the partitions are not
    EVEX-encoded according to the instruction info. *)
Definition shortFormsNotEVEX (P : EvexToVexInstPass) (tii : X86InstrInfo)
    : Prop :=
  ∀ EvexOp VexOp,
    EvexToVex128Table P !! EvexOp = Some VexOp
      ∨ EvexToVex256Table P !! EvexOp = Some VexOp →
    VexOp ≠ 0 →
    Z.land (TSFlags (get tii VexOp)) X86II.EncodingMask ≠ X86II.EVEX.

(** One call of [CompressEvexToVexImpl] takes the instruction [MI] to
    [MI1], with whatever result. *)
Definition compressesTo (P : EvexToVexInstPass) (MI MI1 : MachineInstr)
    : Prop :=
  ∃ b, CompressEvexToVexImpl P MI = Ok (b, MI1).


(** Key and value under which [AddTableEntry] files an entry. *)
Definition entryKey (Entry : X86EvexToVexCompressTableEntry) : Z :=
  uint16 (EvexOpcode Entry).

Definition entryValue (Entry : X86EvexToVexCompressTableEntry) : Z :=
  uint16 (VexOpcode Entry).

End Model.

(** ** Sample target, tables and instructions

    Concrete values for the parameters, used to run the model. The numbers
    are placeholders for the generated enumerators. *)

Module Sample.

Definition flags : X86II.Flags :=
  {| X86II.EncodingMask := 0x30000000;
     X86II.EVEX := 0x30000000;
     X86II.EVEX_K := 0x20000000000;
     X86II.EVEX_B := 0x100000000000;
     X86II.EVEX_L2 := 0x80000000000;
     X86II.VEX_L := 0x10000000000 |}.

Definition VEX : Z := 0x10000000.

Definition enum : X86.Enum :=
  {| X86.XMM16 := 116; X86.XMM31 := 131;
     X86.YMM16 := 216; X86.YMM31 := 231;
     X86.ZMM0 := 300;  X86.ZMM31 := 331;
     X86.VALIGNDZ128rri := 1001; X86.VALIGNDZ128rmi := 1002;
     X86.VALIGNQZ128rri := 1003; X86.VALIGNQZ128rmi := 1004;
     X86.VPALIGNRrri := 2001; X86.VPALIGNRrmi := 2002;
     X86.VSHUFF32X4Z256rmi := 1011; X86.VSHUFF32X4Z256rri := 1012;
     X86.VSHUFF64X2Z256rmi := 1013; X86.VSHUFF64X2Z256rri := 1014;
     X86.VSHUFI32X4Z256rmi := 1015; X86.VSHUFI32X4Z256rri := 1016;
     X86.VSHUFI64X2Z256rmi := 1017; X86.VSHUFI64X2Z256rri := 1018;
     X86.VPERM2F128rr := 2011; X86.VPERM2I128rr := 2012;
     X86.VPERM2F128rm := 2013; X86.VPERM2I128rm := 2014;
     X86.VRNDSCALEPDZ128rri := 1021; X86.VRNDSCALEPDZ128rmi := 1022;
     X86.VRNDSCALEPSZ128rri := 1023; X86.VRNDSCALEPSZ128rmi := 1024;
     X86.VRNDSCALEPDZ256rri := 1025; X86.VRNDSCALEPDZ256rmi := 1026;
     X86.VRNDSCALEPSZ256rri := 1027; X86.VRNDSCALEPSZ256rmi := 1028;
     X86.VRNDSCALESDZr := 1029; X86.VRNDSCALESDZm := 1030;
     X86.VRNDSCALESSZr := 1031; X86.VRNDSCALESSZm := 1032;
     X86.VRNDSCALESDZr_Int := 1033; X86.VRNDSCALESDZm_Int := 1034;
     X86.VRNDSCALESSZr_Int := 1035; X86.VRNDSCALESSZm_Int := 1036;
     X86.AC_EVEX_2_VEX := 4 |}.

Definition debug : Build := {| NDEBUG := false |}.
Definition release : Build := {| NDEBUG := true |}.

(** Opcodes outside the adjustment set: an addition in its 128, 256 and
    512 bit EVEX forms, a masked form, and the VEX forms. *)
Definition VADDPSZ128rr : Z := 1100.
Definition VADDPSZ256rr : Z := 1101.
Definition VADDPSZrr : Z := 1102.
Definition VADDPSZ128rrk : Z := 1103.
Definition VSUBPSZ128rr : Z := 1104.
Definition VADDPSrr : Z := 2100.
Definition VADDPSYrr : Z := 2101.
Definition VROUNDPSr : Z := 2023.

(** A descriptor table: opcodes below 2000 are EVEX-encoded, the others
    VEX-encoded; the adjustment families carry a trailing immediate. *)
Definition descTSFlags (n : Z) : Z :=
  if n <? 2000 then
    Z.lor (X86II.EVEX (Flags := flags))
      (if bool_decide (n ∈ [1101; 1011; 1012; 1013; 1014; 1015; 1016; 1017;
                             1018; 1025; 1026; 1027; 1028])
       then X86II.VEX_L (Flags := flags)
       else if n =? 1102 then X86II.EVEX_L2 (Flags := flags)
       else if n =? 1103 then X86II.EVEX_K (Flags := flags)
       else 0)
  else if bool_decide (n ∈ [2101; 2011; 2012; 2013; 2014])
       then Z.lor VEX (X86II.VEX_L (Flags := flags))
       else VEX.

Definition descNumOperands (n : Z) : nat :=
  if bool_decide (n ∈ [1100; 1101; 1102; 1104; 2100; 2101]) then 3%nat
  else if (1000 <? n) && (n <? 1020) then 4%nat
  else if bool_decide (n ∈ [2001; 2002; 2011; 2012; 2013; 2014]) then 4%nat
  else 3%nat.

Definition desc (n : Z) : MCInstrDesc :=
  {| Opcode := n; NumOperands := descNumOperands n; TSFlags := descTSFlags n |}.

Definition instrInfo : X86InstrInfo := {| get := desc |}.

Definition subtarget : X86Subtarget :=
  {| hasAVX512 := true; getInstrInfo := instrInfo |}.

Definition table128 : list X86EvexToVexCompressTableEntry :=
  [ {| EvexOpcode := 1100; VexOpcode := 2100 |};
    {| EvexOpcode := 1103; VexOpcode := 2100 |};
    {| EvexOpcode := 1003; VexOpcode := 2001 |};
    {| EvexOpcode := 1023; VexOpcode := 2023 |} ].

(** The entry for 1104, a 128 bit opcode, sits in the wrong partition. *)
Definition table256 : list X86EvexToVexCompressTableEntry :=
  [ {| EvexOpcode := 1101; VexOpcode := 2101 |};
    {| EvexOpcode := 1012; VexOpcode := 2011 |};
    {| EvexOpcode := 1104; VexOpcode := 2100 |} ].

(** The pass object as the constructor leaves it, and with [TII] set. *)
Definition pass0 : EvexToVexInstPass := newEvexToVexInstPass table128 table256.

Definition pass : EvexToVexInstPass :=
  {| EvexToVex128Table := EvexToVex128Table pass0;
     EvexToVex256Table := EvexToVex256Table pass0;
     TII := Some instrInfo |}.

(** A pass whose 128 table maps an opcode to 0. *)
Definition passZero : EvexToVexInstPass :=
  {| EvexToVex128Table := <[1104 := 0]> (EvexToVex128Table pass0);
     EvexToVex256Table := EvexToVex256Table pass0;
     TII := Some instrInfo |}.

Definition instr (opc : Z) (ops : list MachineOperand) : MachineInstr :=
  {| MCID := desc opc; Operands := ops; AsmPrinterFlags := 0 |}.

Definition XMM (i : Z) : MachineOperand := MO_Register (100 + i).
Definition YMM (i : Z) : MachineOperand := MO_Register (200 + i).
Definition ZMM (i : Z) : MachineOperand := MO_Register (300 + i).

Definition add128 : MachineInstr := instr VADDPSZ128rr [XMM 1; XMM 2; XMM 3].
Definition add256 : MachineInstr := instr VADDPSZ256rr [YMM 1; YMM 2; YMM 3].
Definition add512 : MachineInstr := instr VADDPSZrr [ZMM 1; ZMM 2; ZMM 3].
Definition addMasked : MachineInstr :=
  instr VADDPSZ128rrk [XMM 1; XMM 2; XMM 3].
Definition addHigh : MachineInstr := instr VADDPSZ128rr [XMM 1; XMM 20; XMM 3].
Definition addVex : MachineInstr := instr VADDPSrr [XMM 1; XMM 2; XMM 3].
Definition sub128 : MachineInstr := instr VSUBPSZ128rr [XMM 1; XMM 2; XMM 3].
Definition round (imm : Z) : MachineInstr :=
  instr 1023 [XMM 1; XMM 2; MO_Immediate imm].
Definition shuffle (imm : Z) : MachineInstr :=
  instr 1012 [YMM 1; YMM 2; YMM 3; MO_Immediate imm].
Definition align (imm : Z) : MachineInstr :=
  instr 1003 [XMM 1; XMM 2; XMM 3; MO_Immediate imm].
(** An instruction of the 128 table that names a ZMM register after a
    high XMM register. *)
Definition addHighThenZMM : MachineInstr :=
  instr VADDPSZ128rr [XMM 16; ZMM 0; XMM 3].

(** An instruction of the 128 table that names a ZMM register first
    among its high registers. *)
Definition addZMM : MachineInstr :=
  instr VADDPSZ128rr [XMM 1; ZMM 2; XMM 3].

(** An instruction of the 128 table that names a ZMM register before a
    high XMM register. *)
Definition zmmThenHigh : MachineInstr :=
  instr VADDPSZ128rr [ZMM 2; XMM 20; XMM 3].

Definition function (MBBs : list MachineBasicBlock) : MachineFunction :=
  {| getSubtarget := subtarget; Blocks := MBBs |}.

Definition unit1 : MachineFunction :=
  function [[add128; add512; round 0x17; round 0x07];
            [addMasked; shuffle 3; addHigh; addVex; add256]].

(** What the pass makes of [unit1]. *)
Definition unit1Compressed : MachineFunction :=
  function
    [[committed (x86 := enum) add128 (desc 2100); add512; round 0x17;
      committed (x86 := enum) (round 0x07) (desc 2023)];
     [addMasked; committed (x86 := enum) (shuffle 0x31) (desc 2011);
      addHigh; addVex; committed (x86 := enum) add256 (desc 2101)]].

(** A function with nothing to compress, one whose second instruction
    trips the ZMM assertion, and the latter on a target without AVX-512. *)
Definition unitQuiet : MachineFunction :=
  function [[add512; addMasked]; []; [addVex; addHigh]].

Definition unitFault : MachineFunction := function [[add128; addZMM]].

Definition unitNoAVX : MachineFunction :=
  {| getSubtarget := {| hasAVX512 := false; getInstrInfo := instrInfo |};
     Blocks := [[add128; addZMM]] |}.

(** A generated list with two entries under the key 1100. *)
Definition tableDup : list X86EvexToVexCompressTableEntry :=
  [ {| EvexOpcode := 1100; VexOpcode := 2100 |};
    {| EvexOpcode := 1101; VexOpcode := 2101 |};
    {| EvexOpcode := 1100; VexOpcode := 2105 |} ].

(** The sample pass with an entry for VALIGND, and one with a wrong entry
    for VALIGNQ. *)
Definition passD : EvexToVexInstPass :=
  {| EvexToVex128Table := <[1001 := 2002]> (EvexToVex128Table pass0);
     EvexToVex256Table := EvexToVex256Table pass0;
     TII := Some instrInfo |}.

Definition passBad : EvexToVexInstPass :=
  {| EvexToVex128Table := <[1003 := 2100]> (EvexToVex128Table pass0);
     EvexToVex256Table := EvexToVex256Table pass0;
     TII := Some instrInfo |}.

Definition alignD (imm : Z) : MachineInstr :=
  instr 1001 [XMM 1; XMM 2; XMM 3; MO_Immediate imm].

End Sample.

(** ** Properties *)

Section Properties.
Context {tsflags : X86II.Flags} {x86 : X86.Enum} {build : Build}.

Implicit Types (P : EvexToVexInstPass) (MI : MachineInstr) (NewOpc : Z).

(** *** The result monad *)

Lemma bind_Ok {A B} (r : result A) (k : A → result B) (b : B) :
  r ≫= k = Ok b ↔ ∃ a, r = Ok a ∧ k a = Ok b.
Proof.
  destruct r as [a|f]; simpl; split.
  - intros Hk. exists a. split; [reflexivity | exact Hk].
  - intros (a' & Ha & Hk). injection Ha as ->. exact Hk.
  - intros Hk. discriminate Hk.
  - intros (a' & Ha & _). discriminate Ha.
Qed.

Ltac inv_bind H :=
  let a := fresh "a" in
  let Ha := fresh "Ha" in
  apply bind_Ok in H; destruct H as (a & Ha & H).

(** *** Bit tests *)

Lemma truthy_true z : truthy z = true ↔ z ≠ 0.
Proof.
  unfold truthy. rewrite negb_true_iff, Z.eqb_neq. reflexivity.
Qed.

Lemma truthy_false z : truthy z = false ↔ z = 0.
Proof.
  unfold truthy. rewrite negb_false_iff, Z.eqb_eq. reflexivity.
Qed.

(** Testing [a & (k | b)] is testing either bit. *)
Lemma truthy_land_lor a k b' :
  truthy (Z.land a (Z.lor k b')) = truthy (Z.land a k) || truthy (Z.land a b').
Proof.
  rewrite Z.land_lor_distr_r.
  destruct (truthy (Z.land a k)) eqn:Hk; simpl.
  - apply truthy_true. apply truthy_true in Hk.
    intros Hz. apply Z.lor_eq_0_iff in Hz. tauto.
  - apply truthy_false in Hk. rewrite Hk, Z.lor_0_l. reflexivity.
Qed.

(** Only bits 3:0 are used exactly when the value is in [0, 16). *)
Lemma low_nibble_iff v : Z.land v 0xf = v ↔ 0 ≤ v < 16.
Proof.
  change 0xf with (Z.ones 4). rewrite Z.land_ones by lia.
  change (2 ^ 4) with 16. split.
  - intros <-. apply Z.mod_pos_bound. lia.
  - intros Hv. apply Z.mod_small. exact Hv.
Qed.

Lemma high_bit_not_low_nibble v k :
  4 ≤ k → Z.testbit v k = true → Z.land v 0xf ≠ v.
Proof.
  intros Hk Hbit Heq. rewrite <- Heq in Hbit.
  change 0xf with (Z.ones 4) in Hbit.
  rewrite Z.land_spec, Z.ones_spec_high, andb_false_r in Hbit by lia.
  discriminate Hbit.
Qed.

(** *** The stages of CompressEvexToVexImpl *)

(** The function is its eligibility prefix, summarised by [candidate],
    followed by [afterLookup]. *)
Lemma CompressEvexToVexImpl_eq P MI :
  CompressEvexToVexImpl P MI =
  match candidate P MI with
  | Some NewOpc => afterLookup P MI NewOpc
  | None => Ok (false, MI)
  end.
Proof.
  unfold CompressEvexToVexImpl, candidate, selectedEntry, widthClass,
    isEVEXEncoded, hasMask, hasBroadcast, bitEVEX_L2, bitVEX_L, afterLookup.
  rewrite truthy_land_lor.
  destruct (Z.land (TSFlags (getDesc MI)) X86II.EncodingMask =? X86II.EVEX);
    simpl; [|reflexivity].
  destruct (truthy (Z.land (TSFlags (getDesc MI)) X86II.EVEX_K)
            || truthy (Z.land (TSFlags (getDesc MI)) X86II.EVEX_B));
    simpl; [reflexivity|].
  destruct (truthy (Z.land (TSFlags (getDesc MI)) X86II.EVEX_L2)),
    (truthy (Z.land (TSFlags (getDesc MI)) X86II.VEX_L)); simpl;
    try reflexivity.
  - destruct (EvexToVex256Table P !! getOpcode MI) as [n|]; simpl;
      [|reflexivity].
    unfold truthy. rewrite negb_involutive.
    destruct (n =? 0); reflexivity.
  - destruct (EvexToVex128Table P !! getOpcode MI) as [n|]; simpl;
      [|reflexivity].
    unfold truthy. rewrite negb_involutive.
    destruct (n =? 0); reflexivity.
Qed.

Lemma candidate_Some P MI NewOpc :
  candidate P MI = Some NewOpc ↔
  isEVEXEncoded MI = true ∧ hasMask MI = false ∧ hasBroadcast MI = false ∧
  selectedEntry P MI = Some NewOpc ∧ NewOpc ≠ 0.
Proof.
  unfold candidate.
  destruct (isEVEXEncoded MI), (hasMask MI), (hasBroadcast MI); simpl;
    try (split; [discriminate | intros (? & ? & ? & _); discriminate]).
  destruct (selectedEntry P MI) as [n|];
    [|split; [discriminate | intros (_ & _ & _ & ? & _); discriminate]].
  destruct (Z.eqb_spec n 0) as [->|Hn]; split.
  - discriminate.
  - intros (_ & _ & _ & [= <-] & Hne). contradiction.
  - intros [= <-]. auto.
  - intros (_ & _ & _ & [= <-] & _). reflexivity.
Qed.

(** *** Operand accessors *)

Lemma getOperand_Ok MI i MO :
  getOperand MI i = Ok MO → 0 ≤ i ∧ Operands MI !! Z.to_nat i = Some MO.
Proof.
  unfold getOperand.
  destruct (0 <=? i) eqn:Hlo; simpl; [|discriminate].
  destruct (i <? Z.of_nat (getNumOperands MI)); [|discriminate].
  destruct (Operands MI !! Z.to_nat i) as [MO'|]; [|discriminate].
  intros [= <-]. split; [lia | reflexivity].
Qed.

Lemma getImm_Ok MO v : getImm MO = Ok v → MO = MO_Immediate v.
Proof. destruct MO; simpl; congruence. Qed.

Lemma setImm_immediate MI i v v' :
  getOperand MI i = Ok (MO_Immediate v) →
  setImm MI i v' = Ok (withOperand MI i (MO_Immediate v')).
Proof. intros Hget. unfold setImm. rewrite Hget. reflexivity. Qed.

(** *** The switch of performCustomAdjustments *)

Lemma isCase_true Opc labels : isCase Opc labels = true ↔ Opc ∈ labels.
Proof. unfold isCase. apply bool_decide_eq_true. Qed.

Lemma switchCase_VSHUF Opc :
  NoDup case_labels → Opc ∈ VSHUF_cases → switchCase Opc = CaseVSHUF.
Proof.
  unfold case_labels. intros (_ & Hdisj & _)%NoDup_app Hin.
  unfold switchCase.
  destruct (isCase Opc VALIGN_cases) eqn:Ha.
  - apply isCase_true in Ha. exfalso. apply (Hdisj Opc Ha).
    apply elem_of_app. left. exact Hin.
  - apply isCase_true in Hin. rewrite Hin. reflexivity.
Qed.

Lemma switchCase_VRNDSCALE Opc :
  NoDup case_labels → Opc ∈ VRNDSCALE_cases → switchCase Opc = CaseVRNDSCALE.
Proof.
  unfold case_labels.
  intros (_ & Hdisj & (_ & Hdisj' & _)%NoDup_app)%NoDup_app Hin.
  unfold switchCase.
  destruct (isCase Opc VALIGN_cases) eqn:Ha.
  { apply isCase_true in Ha. exfalso. apply (Hdisj Opc Ha).
    apply elem_of_app. right. exact Hin. }
  destruct (isCase Opc VSHUF_cases) eqn:Hs.
  { apply isCase_true in Hs. exfalso. exact (Hdisj' Opc Hs Hin). }
  apply isCase_true in Hin. rewrite Hin. reflexivity.
Qed.

Lemma switchCase_default Opc :
  Opc ∉ case_labels → switchCase Opc = CaseDefault.
Proof.
  unfold case_labels. rewrite !elem_of_app. intros Hnot.
  unfold switchCase.
  destruct (isCase Opc VALIGN_cases) eqn:Ha;
    [apply isCase_true in Ha; tauto|].
  destruct (isCase Opc VSHUF_cases) eqn:Hs;
    [apply isCase_true in Hs; tauto|].
  destruct (isCase Opc VRNDSCALE_cases) eqn:Hr;
    [apply isCase_true in Hr; tauto|].
  reflexivity.
Qed.

Lemma switchCase_labelled Opc :
  switchCase Opc ≠ CaseDefault → Opc ∈ case_labels.
Proof.
  intros Hne. destruct (decide (Opc ∈ case_labels)) as [Hin|Hnot];
    [exact Hin|].
  exfalso. apply Hne. apply switchCase_default. exact Hnot.
Qed.

(** The range validation of the VRNDSCALE group. *)
Lemma performCustomAdjustments_VRNDSCALE MI NewOpc v :
  switchCase (getOpcode MI) = CaseVRNDSCALE →
  lastImmediate MI v →
  performCustomAdjustments MI NewOpc = Ok (Z.land v 0xf =? v, MI).
Proof.
  intros Hcase Himm. unfold performCustomAdjustments.
  rewrite Hcase, Himm. simpl.
  destruct (Z.land v 15 =? v); reflexivity.
Qed.

(** The lane-select remap of the VSHUF group. *)
Lemma performCustomAdjustments_VSHUF MI NewOpc v :
  switchCase (getOpcode MI) = CaseVSHUF →
  lastImmediate MI v →
  NDEBUG = true
    ∨ NewOpc ∈ [X86.VPERM2F128rr; X86.VPERM2I128rr;
                X86.VPERM2F128rm; X86.VPERM2I128rm] →
  performCustomAdjustments MI NewOpc =
  Ok (true, withOperand MI (lastExplicitIdx MI)
                        (MO_Immediate (laneSelectImm v))).
Proof.
  intros Hcase Himm Hassert. unfold performCustomAdjustments.
  rewrite Hcase.
  assert (assert ((NewOpc =? X86.VPERM2F128rr) || (NewOpc =? X86.VPERM2I128rr)
                  || (NewOpc =? X86.VPERM2F128rm)
                  || (NewOpc =? X86.VPERM2I128rm))
            "Unexpected new opcode!" = Ok ()) as ->.
  { unfold assert. destruct Hassert as [-> | Hin]; [reflexivity|].
    rewrite !elem_of_cons, elem_of_nil in Hin.
    destruct Hin as [-> | [-> | [-> | [-> | []]]]];
      rewrite Z.eqb_refl, ?orb_true_r; reflexivity. }
  simpl. rewrite Himm. simpl.
  rewrite (setImm_immediate _ _ _ _ Himm). reflexivity.
Qed.

(** The adjustment reports failure only from the range validation, and
    then it has not touched the instruction. *)
Lemma performCustomAdjustments_false MI NewOpc MI' :
  performCustomAdjustments MI NewOpc = Ok (false, MI') →
  MI' = MI ∧ switchCase (getOpcode MI) = CaseVRNDSCALE ∧
  ∃ v, lastImmediate MI v ∧ Z.land v 0xf ≠ v.
Proof.
  unfold performCustomAdjustments.
  destruct (switchCase (getOpcode MI)) eqn:Hcase; intros Hrun.
  - inv_bind Hrun. inv_bind Hrun. inv_bind Hrun. inv_bind Hrun.
    discriminate Hrun.
  - inv_bind Hrun. inv_bind Hrun. inv_bind Hrun. inv_bind Hrun.
    discriminate Hrun.
  - inv_bind Hrun. inv_bind Hrun.
    apply getImm_Ok in Ha0 as ->.
    destruct (Z.eqb_spec (Z.land a0 15) a0) as [Heq|Hne]; simpl in Hrun;
      [discriminate Hrun|].
    injection Hrun as <-. split; [reflexivity|]. split; [reflexivity|].
    exists a0. split; [exact Ha | exact Hne].
  - discriminate Hrun.
Qed.

(** A successful adjustment keeps descriptor and flags, and either keeps
    the operands or overwrites the last explicit operand, an immediate,
    with an immediate; the latter only for a labelled opcode. *)
Lemma performCustomAdjustments_true MI NewOpc MI' :
  performCustomAdjustments MI NewOpc = Ok (true, MI') →
  MI' = MI ∨
  (getOpcode MI ∈ case_labels ∧
   ∃ v v', lastImmediate MI v ∧
           MI' = withOperand MI (lastExplicitIdx MI) (MO_Immediate v')).
Proof.
  unfold performCustomAdjustments.
  destruct (switchCase (getOpcode MI)) eqn:Hcase; intros Hrun.
  - right. split; [apply switchCase_labelled; congruence|].
    inv_bind Hrun. inv_bind Hrun. inv_bind Hrun. inv_bind Hrun.
    apply getImm_Ok in Ha1 as ->.
    rewrite (setImm_immediate _ _ _ _ Ha0) in Ha2.
    injection Ha2 as <-. injection Hrun as <-. eauto.
  - right. split; [apply switchCase_labelled; congruence|].
    inv_bind Hrun. inv_bind Hrun. inv_bind Hrun. inv_bind Hrun.
    apply getImm_Ok in Ha1 as ->.
    rewrite (setImm_immediate _ _ _ _ Ha0) in Ha2.
    injection Ha2 as <-. injection Hrun as <-. eauto.
  - left. inv_bind Hrun. inv_bind Hrun.
    destruct (Z.land a0 15 =? a0); simpl in Hrun; [|discriminate Hrun].
    injection Hrun as <-. reflexivity.
  - left. injection Hrun as <-. reflexivity.
Qed.

(** *** The register scan *)

(** Whatever the build, a scan that returns tells whether a high XMM/YMM
    register occurs. *)
Lemma scanOperands_Ok MOs b :
  scanOperands MOs = Ok b → b = existsb (regSel isHiRegIdx) MOs.
Proof.
  induction MOs as [|MO rest IH]; simpl.
  - intros [= <-]. reflexivity.
  - destruct MO as [r| |]; simpl; try exact IH.
    unfold assert.
    destruct (NDEBUG || negb (isZMMReg r)); simpl; [|discriminate].
    destruct (isHiRegIdx r); simpl; [|exact IH].
    intros [= <-]. reflexivity.
Qed.

(** When the assertion cannot fire, the scan returns. *)
Lemma scanOperands_total MOs :
  NDEBUG = true ∨ existsb (regSel isZMMReg) MOs = false →
  scanOperands MOs = Ok (existsb (regSel isHiRegIdx) MOs).
Proof.
  intros Hassert. induction MOs as [|MO rest IH]; simpl; [reflexivity|].
  assert (NDEBUG = true ∨ existsb (regSel isZMMReg) rest = false) as Hrest.
  { destruct Hassert as [Hnd|Hz]; [left; exact Hnd|].
    right. simpl in Hz. apply orb_false_iff in Hz. tauto. }
  destruct MO as [r| |]; simpl; try (apply IH; exact Hrest).
  assert (assert (negb (isZMMReg r)) assertMsg = Ok ()) as Hok.
  { unfold assert. destruct Hassert as [-> | Hz]; [reflexivity|].
    simpl in Hz. apply orb_false_iff in Hz. destruct Hz as [-> _].
    rewrite orb_true_r. reflexivity. }
  unfold assertMsg in Hok. rewrite Hok. simpl.
  destruct (isHiRegIdx r); simpl; [reflexivity|]. apply IH. exact Hrest.
Qed.

(** With assertions enabled, a ZMM register that the scan reaches stops
    it with the assertion failure. *)
Lemma scanOperands_assert pre r post :
  NDEBUG = false →
  existsb (regSel isHiRegIdx) pre = false →
  isZMMReg r = true →
  scanOperands (pre ++ MO_Register r :: post)
  = Abort (AssertionFailed assertMsg).
Proof.
  intros Hdebug Hpre Hz. induction pre as [|MO pre IH]; simpl.
  - unfold assert. rewrite Hdebug, Hz. reflexivity.
  - simpl in Hpre. apply orb_false_iff in Hpre. destruct Hpre as [Hmo Hpre].
    destruct MO as [r'| |]; simpl; try (apply IH; exact Hpre).
    simpl in Hmo. unfold assert. rewrite Hdebug. simpl.
    destruct (isZMMReg r'); simpl; [reflexivity|].
    rewrite Hmo. apply IH. exact Hpre.
Qed.

(** The only fault of the scan is the assertion. *)
Lemma scanOperands_Abort MOs f :
  scanOperands MOs = Abort f →
  f = AssertionFailed assertMsg ∧ NDEBUG = false ∧
  existsb (regSel isZMMReg) MOs = true.
Proof.
  induction MOs as [|MO rest IH]; simpl; [discriminate|].
  destruct MO as [r| |]; simpl; try exact IH.
  unfold assert. destruct NDEBUG; simpl.
  - destruct (isHiRegIdx r); [discriminate|].
    intros Hrest. apply IH in Hrest. destruct Hrest as (_ & Hnd & _).
    discriminate Hnd.
  - destruct (isZMMReg r); simpl.
    + intros [= <-]. auto.
    + destruct (isHiRegIdx r); [discriminate|].
      intros Hrest. apply IH in Hrest. tauto.
Qed.

Lemma namesRegister_eq sel MI :
  namesRegister sel MI = existsb (regSel sel) (explicit_operands MI).
Proof. reflexivity. Qed.

(** *** After the lookup *)

Lemma afterLookup_false P MI NewOpc MI' :
  afterLookup P MI NewOpc = Ok (false, MI') → MI' = MI.
Proof.
  unfold afterLookup. intros Hrun. inv_bind Hrun.
  destruct a as [|]; [injection Hrun as <-; reflexivity|].
  inv_bind Hrun. destruct a as [adjusted MI1].
  destruct adjusted; simpl in Hrun.
  - destruct (TII P); discriminate Hrun.
  - injection Hrun as <-.
    apply performCustomAdjustments_false in Ha0. tauto.
Qed.

Lemma afterLookup_true P MI NewOpc MI' :
  afterLookup P MI NewOpc = Ok (true, MI') →
  ∃ tii MI1,
    usesExtendedRegister MI = Ok false ∧
    performCustomAdjustments MI NewOpc = Ok (true, MI1) ∧
    TII P = Some tii ∧
    MI' = committed MI1 (get tii NewOpc).
Proof.
  unfold afterLookup. intros Hrun. inv_bind Hrun.
  destruct a as [|]; [discriminate Hrun|].
  inv_bind Hrun. destruct a as [adjusted MI1].
  destruct adjusted; simpl in Hrun; [|discriminate Hrun].
  destruct (TII P) as [tii|]; [|discriminate Hrun].
  injection Hrun as <-. exists tii, MI1. auto.
Qed.

(** Whenever CompressEvexToVexImpl returns false, the instruction it
    hands back is the one it was given. *)
Lemma CompressEvexToVexImpl_false P MI MI' :
  CompressEvexToVexImpl P MI = Ok (false, MI') → MI' = MI.
Proof.
  rewrite CompressEvexToVexImpl_eq.
  destruct (candidate P MI) as [NewOpc|].
  - apply afterLookup_false.
  - intros [= <-]. reflexivity.
Qed.

(** Whenever it returns true, the instruction passed every stage. *)
Lemma CompressEvexToVexImpl_true P MI MI' :
  CompressEvexToVexImpl P MI = Ok (true, MI') →
  ∃ NewOpc tii MI1,
    candidate P MI = Some NewOpc ∧
    usesExtendedRegister MI = Ok false ∧
    performCustomAdjustments MI NewOpc = Ok (true, MI1) ∧
    TII P = Some tii ∧
    MI' = committed MI1 (get tii NewOpc).
Proof.
  rewrite CompressEvexToVexImpl_eq.
  destruct (candidate P MI) as [NewOpc|]; [|discriminate].
  intros (tii & MI1 & Hrest)%afterLookup_true.
  exists NewOpc, tii, MI1. tauto.
Qed.

Lemma candidate_None_cases P MI :
  isEVEXEncoded MI = false ∨ hasMask MI = true ∨ hasBroadcast MI = true ∨
  selectedEntry P MI = None ∨ selectedEntry P MI = Some 0 →
  candidate P MI = None.
Proof.
  unfold candidate.
  destruct (isEVEXEncoded MI), (hasMask MI), (hasBroadcast MI); simpl;
    try reflexivity.
  intros [Hc | [Hc | [Hc | [-> | ->]]]];
    try discriminate Hc; reflexivity.
Qed.

Lemma selectedEntry_wide P MI :
  widthClass MI = W512 ∨ widthClass MI = WUnresolved →
  selectedEntry P MI = None.
Proof. unfold selectedEntry. intros [-> | ->]; reflexivity. Qed.

Lemma CompressEvexToVexImpl_ext P P' MI :
  selectedEntry P' MI = selectedEntry P MI → TII P' = TII P →
  CompressEvexToVexImpl P' MI = CompressEvexToVexImpl P MI.
Proof.
  intros Hsel Htii. rewrite !CompressEvexToVexImpl_eq.
  unfold candidate. rewrite Hsel.
  destruct (isEVEXEncoded MI && negb (hasMask MI || hasBroadcast MI));
    [|reflexivity].
  destruct (selectedEntry P MI) as [n|]; [|reflexivity].
  destruct (n =? 0); [reflexivity|].
  unfold afterLookup. rewrite Htii. reflexivity.
Qed.

Lemma CompressEvexToVexImpl_ineligible P MI :
  candidate P MI = None → CompressEvexToVexImpl P MI = Ok (false, MI).
Proof. intros Hc. rewrite CompressEvexToVexImpl_eq, Hc. reflexivity. Qed.

(** *** Failure leaves the instruction as it was *)

(** C1. If the compression attempt fails at any stage (wrong encoding
    class, mask or broadcast flag set, wrong width class, table miss,
    extended register present, immediate range validation failure), then
    CompressEvexToVexImpl returns false and hands the instruction back
    unchanged: same descriptor (hence opcode), same operand sequence, same
    annotation flags.  Moreover every false return, whatever its cause,
    hands back the instruction it was given. *)
Theorem failed_attempt_leaves_instruction_unchanged P MI :
  (FailsAt P MI → CompressEvexToVexImpl P MI = Ok (false, MI)) ∧
  (∀ MI', CompressEvexToVexImpl P MI = Ok (false, MI') → MI' = MI).
Proof.
  split; [|intros MI'; apply CompressEvexToVexImpl_false].
  intros [Henc | Hmask | Hbc | Hwidth | Hmiss | Hext
          | NewOpc v Hcand Hext Hcase Himm Hrange].
  - apply CompressEvexToVexImpl_ineligible, candidate_None_cases. auto.
  - apply CompressEvexToVexImpl_ineligible, candidate_None_cases. auto.
  - apply CompressEvexToVexImpl_ineligible, candidate_None_cases. auto.
  - apply CompressEvexToVexImpl_ineligible, candidate_None_cases.
    right; right; right; left. apply selectedEntry_wide. exact Hwidth.
  - apply CompressEvexToVexImpl_ineligible, candidate_None_cases. auto.
  - rewrite CompressEvexToVexImpl_eq.
    destruct (candidate P MI) as [NewOpc|]; [|reflexivity].
    unfold afterLookup. rewrite Hext. reflexivity.
  - rewrite CompressEvexToVexImpl_eq, Hcand.
    unfold afterLookup. rewrite Hext. simpl.
    rewrite (performCustomAdjustments_VRNDSCALE _ _ _ Hcase Himm). simpl.
    apply Z.eqb_neq in Hrange. rewrite Hrange. reflexivity.
Qed.

(** *** Width class and table dispatch *)

(** C3. The width class alone decides the dispatch.  A W512 instruction
    (EVEX_L2 set, VEX_L clear) and an instruction with both width bits
    set are returned unchanged with result false whatever the two tables
    contain.  For a W128 instruction the outcome depends on the pass only
    through the 128 table (and TII), and a miss there gives false even if
    the 256 table has the opcode; symmetrically for W256. *)
Theorem width_class_decides_dispatch P MI :
  match widthClass MI with
  | W512 | WUnresolved =>
      ∀ P', CompressEvexToVexImpl P' MI = Ok (false, MI)
  | W128 =>
      (∀ P', EvexToVex128Table P' = EvexToVex128Table P → TII P' = TII P →
             CompressEvexToVexImpl P' MI = CompressEvexToVexImpl P MI) ∧
      (EvexToVex128Table P !! getOpcode MI = None →
       CompressEvexToVexImpl P MI = Ok (false, MI))
  | W256 =>
      (∀ P', EvexToVex256Table P' = EvexToVex256Table P → TII P' = TII P →
             CompressEvexToVexImpl P' MI = CompressEvexToVexImpl P MI) ∧
      (EvexToVex256Table P !! getOpcode MI = None →
       CompressEvexToVexImpl P MI = Ok (false, MI))
  end.
Proof.
  destruct (widthClass MI) eqn:Hw.
  - split.
    + intros P' Htbl Htii. apply CompressEvexToVexImpl_ext; [|exact Htii].
      unfold selectedEntry. rewrite Hw, Htbl. reflexivity.
    + intros Hmiss. apply CompressEvexToVexImpl_ineligible,
        candidate_None_cases.
      right; right; right; left. unfold selectedEntry. rewrite Hw.
      exact Hmiss.
  - split.
    + intros P' Htbl Htii. apply CompressEvexToVexImpl_ext; [|exact Htii].
      unfold selectedEntry. rewrite Hw, Htbl. reflexivity.
    + intros Hmiss. apply CompressEvexToVexImpl_ineligible,
        candidate_None_cases.
      right; right; right; left. unfold selectedEntry. rewrite Hw.
      exact Hmiss.
  - intros P'. apply CompressEvexToVexImpl_ineligible, candidate_None_cases.
    right; right; right; left. apply selectedEntry_wide. auto.
  - intros P'. apply CompressEvexToVexImpl_ineligible, candidate_None_cases.
    right; right; right; left. apply selectedEntry_wide. auto.
Qed.

(** *** Mask and broadcast *)

(** C4. An instruction whose descriptor has the mask flag (EVEX_K) or the
    broadcast flag (EVEX_B) set is never rewritten: for every pass object,
    so whatever the tables hold for its opcode, CompressEvexToVexImpl
    returns false and the instruction unchanged. *)
Theorem mask_or_broadcast_never_rewritten P MI :
  hasMask MI = true ∨ hasBroadcast MI = true →
  CompressEvexToVexImpl P MI = Ok (false, MI).
Proof.
  intros Hflag. apply CompressEvexToVexImpl_ineligible, candidate_None_cases.
  tauto.
Qed.

(** *** High registers *)

(** The scan returns true at a high XMM/YMM register when no ZMM register
    stands at or before it, or when assertions are compiled out. *)
Lemma scanOperands_high pre r post :
  isHiRegIdx r = true →
  NDEBUG = true ∨ existsb (regSel isZMMReg) (pre ++ [MO_Register r]) = false →
  scanOperands (pre ++ MO_Register r :: post) = Ok true.
Proof.
  intros Hhi Hassert. induction pre as [|MO pre IH]; simpl.
  - assert (NDEBUG || negb (isZMMReg r) = true) as Hok.
    { destruct Hassert as [-> | Hz]; [reflexivity|].
      simpl in Hz. apply orb_false_iff in Hz. destruct Hz as [-> _].
      apply orb_true_r. }
    unfold assert. rewrite Hok. simpl. rewrite Hhi. reflexivity.
  - assert (NDEBUG = true
            ∨ existsb (regSel isZMMReg) (pre ++ [MO_Register r]) = false)
      as Hrest.
    { destruct Hassert as [Hnd | Hz]; [left; exact Hnd | right].
      simpl in Hz. apply orb_false_iff in Hz. tauto. }
    destruct MO as [r'| |]; simpl; try (apply IH; exact Hrest).
    assert (NDEBUG || negb (isZMMReg r') = true) as Hok.
    { destruct Hassert as [-> | Hz]; [reflexivity|].
      simpl in Hz. apply orb_false_iff in Hz. destruct Hz as [-> _].
      apply orb_true_r. }
    unfold assert. rewrite Hok. simpl.
    destruct (isHiRegIdx r'); [reflexivity|]. apply IH. exact Hrest.
Qed.

(** C5 (amended). An instruction that passed eligibility with a table hit
    and names, among its explicit operands, an XMM or YMM register of the
    high range 16-31 is never rewritten: any result the function returns is
    false with the instruction unchanged (descriptor, operands, flags).
    The function does return false when assertions are compiled out
    (NDEBUG), when no explicit operand is a ZMM register, and more
    precisely whenever no ZMM register operand stands at or before the
    first high XMM/YMM register.  With assertions enabled, a ZMM register
    operand that no high XMM/YMM register operand precedes stops the
    function with the assertion failure instead of a result. *)
Theorem high_register_blocks_rewrite P MI NewOpc :
  candidate P MI = Some NewOpc →
  namesRegister isHiRegIdx MI = true →
  (∀ r MI', CompressEvexToVexImpl P MI = Ok (r, MI') →
            r = false ∧ MI' = MI) ∧
  (NDEBUG = true ∨ namesRegister isZMMReg MI = false →
   CompressEvexToVexImpl P MI = Ok (false, MI)) ∧
  (∀ pre r post,
     explicit_operands MI = pre ++ MO_Register r :: post →
     isHiRegIdx r = true →
     NDEBUG = true
       ∨ existsb (regSel isZMMReg) (pre ++ [MO_Register r]) = false →
     CompressEvexToVexImpl P MI = Ok (false, MI)) ∧
  (∀ pre r post,
     NDEBUG = false →
     explicit_operands MI = pre ++ MO_Register r :: post →
     existsb (regSel isHiRegIdx) pre = false →
     isZMMReg r = true →
     CompressEvexToVexImpl P MI = Abort (AssertionFailed assertMsg)).
Proof.
  intros Hcand Hhi. rewrite CompressEvexToVexImpl_eq, Hcand.
  unfold afterLookup, usesExtendedRegister. split; [|split; [|split]].
  - intros r MI' Hrun. inv_bind Hrun.
    apply scanOperands_Ok in Ha. rewrite <- namesRegister_eq, Hhi in Ha.
    subst a. injection Hrun as <- <-. auto.
  - intros Hassert. rewrite (scanOperands_total _ Hassert).
    rewrite <- namesRegister_eq, Hhi. reflexivity.
  - intros pre r post Hops Hr Hassert.
    rewrite Hops, (scanOperands_high _ _ _ Hr Hassert). reflexivity.
  - intros pre r post Hdebug Hops Hpre Hz.
    rewrite Hops, (scanOperands_assert _ _ _ Hdebug Hpre Hz). reflexivity.
Qed.

(** *** The zero sentinel *)

(** C10. When the partition selected for an instruction maps its opcode to
    0, the instruction is treated exactly like a table miss:
    CompressEvexToVexImpl returns false and the instruction unchanged, as
    does any pass object in which the lookup misses.  A table hit is
    effective only with a nonzero short-form opcode: a true result implies
    a selected entry different from 0. *)
Theorem zero_entry_acts_as_miss P MI :
  (selectedEntry P MI = Some 0 →
   CompressEvexToVexImpl P MI = Ok (false, MI) ∧
   ∀ P', selectedEntry P' MI = None →
         CompressEvexToVexImpl P' MI = CompressEvexToVexImpl P MI) ∧
  (∀ MI', CompressEvexToVexImpl P MI = Ok (true, MI') →
          ∃ NewOpc, selectedEntry P MI = Some NewOpc ∧ NewOpc ≠ 0).
Proof.
  split.
  - intros Hzero.
    assert (CompressEvexToVexImpl P MI = Ok (false, MI)) as Hrun.
    { apply CompressEvexToVexImpl_ineligible, candidate_None_cases. auto. }
    split; [exact Hrun|].
    intros P' Hmiss. rewrite Hrun.
    apply CompressEvexToVexImpl_ineligible, candidate_None_cases. auto.
  - intros MI' (NewOpc & _ & _ & Hcand & _)%CompressEvexToVexImpl_true.
    apply candidate_Some in Hcand. exists NewOpc. tauto.
Qed.

(** *** Immediate adjustments *)

(** The instruction reaches the commit once the adjustment succeeded. *)
Lemma afterLookup_commit P MI NewOpc MI1 tii :
  usesExtendedRegister MI = Ok false →
  performCustomAdjustments MI NewOpc = Ok (true, MI1) →
  TII P = Some tii →
  afterLookup P MI NewOpc = Ok (true, committed MI1 (get tii NewOpc)).
Proof.
  intros Hext Hadj Htii. unfold afterLookup.
  rewrite Hext. simpl. rewrite Hadj. simpl. rewrite Htii. reflexivity.
Qed.

(** C6. For an instruction of the VRNDSCALE group that reaches the
    immediate adjustment (eligible, table hit, no extended register) and
    whose last explicit operand is the immediate v: if one of bits 4-7 of v
    is set, the rewrite is aborted, CompressEvexToVexImpl returning false
    with opcode and immediate unchanged; if v fits in bits 0-3, the
    instruction is rewritten to the short-form opcode of the table and its
    operands, the immediate among them, are unchanged. *)
Theorem rounding_immediate_validation P MI NewOpc v :
  NoDup case_labels →
  getOpcode MI ∈ VRNDSCALE_cases →
  candidate P MI = Some NewOpc →
  usesExtendedRegister MI = Ok false →
  lastImmediate MI v →
  ((∃ k, 4 ≤ k ≤ 7 ∧ Z.testbit v k = true) →
   CompressEvexToVexImpl P MI = Ok (false, MI)) ∧
  (0 ≤ v < 16 → ∀ tii, TII P = Some tii →
   CompressEvexToVexImpl P MI = Ok (true, committed MI (get tii NewOpc)) ∧
   MCID (committed MI (get tii NewOpc)) = get tii NewOpc ∧
   Operands (committed MI (get tii NewOpc)) = Operands MI).
Proof.
  intros Hdistinct Hopc Hcand Hext Himm.
  pose proof (switchCase_VRNDSCALE _ Hdistinct Hopc) as Hcase.
  pose proof (performCustomAdjustments_VRNDSCALE MI NewOpc v Hcase Himm)
    as Hadj.
  rewrite CompressEvexToVexImpl_eq, Hcand. split.
  - intros (k & Hk & Hbit).
    assert (Z.land v 0xf ≠ v) as Hne
      by (apply (high_bit_not_low_nibble v k); [lia | exact Hbit]).
    apply Z.eqb_neq in Hne. rewrite Hne in Hadj.
    unfold afterLookup. rewrite Hext. simpl. rewrite Hadj. reflexivity.
  - intros Hlow tii Htii.
    apply low_nibble_iff, Z.eqb_eq in Hlow. rewrite Hlow in Hadj.
    rewrite (afterLookup_commit _ _ _ _ _ Hext Hadj Htii). auto.
Qed.

(** C7 (amended). For an instruction of the lane-select group whose last
    explicit operand is the immediate v in {0,1,2,3} and whose new opcode
    is one of the four VPERM2 opcodes the code asserts (or with NDEBUG),
    the adjustment succeeds and writes 0x20 | ((v & 2) << 3) | (v & 1),
    that is 0x20, 0x21, 0x30, 0x31 respectively, into that operand; the
    rewritten instruction carries this immediate; and for no instruction
    of the group does the adjustment return false. *)
Theorem lane_select_remap MI NewOpc v :
  NoDup case_labels →
  getOpcode MI ∈ VSHUF_cases →
  lastImmediate MI v →
  v ∈ [0; 1; 2; 3] →
  NDEBUG = true
    ∨ NewOpc ∈ [X86.VPERM2F128rr; X86.VPERM2I128rr;
                X86.VPERM2F128rm; X86.VPERM2I128rm] →
  let MI1 := withOperand MI (lastExplicitIdx MI)
                         (MO_Immediate (laneSelectImm v)) in
  performCustomAdjustments MI NewOpc = Ok (true, MI1) ∧
  [0x20; 0x21; 0x30; 0x31] !! Z.to_nat v = Some (laneSelectImm v) ∧
  Operands MI1 !! Z.to_nat (lastExplicitIdx MI)
    = Some (MO_Immediate (laneSelectImm v)) ∧
  (∀ P tii, candidate P MI = Some NewOpc →
            usesExtendedRegister MI = Ok false → TII P = Some tii →
            CompressEvexToVexImpl P MI
            = Ok (true, committed MI1 (get tii NewOpc))) ∧
  (∀ NewOpc' MI', performCustomAdjustments MI NewOpc' ≠ Ok (false, MI')).
Proof.
  intros Hdistinct Hopc Himm Hv Hassert MI1.
  pose proof (switchCase_VSHUF _ Hdistinct Hopc) as Hcase.
  pose proof (performCustomAdjustments_VSHUF MI NewOpc v Hcase Himm Hassert)
    as Hadj.
  split; [exact Hadj|]. split.
  { rewrite !elem_of_cons, elem_of_nil in Hv.
    destruct Hv as [-> | [-> | [-> | [-> | []]]]]; reflexivity. }
  split.
  { subst MI1. unfold withOperand. simpl.
    apply getOperand_Ok in Himm. destruct Himm as [_ Hlk].
    apply list_lookup_insert_eq. apply lookup_lt_Some in Hlk. exact Hlk. }
  split.
  - intros P tii Hcand Hext Htii.
    rewrite CompressEvexToVexImpl_eq, Hcand.
    apply afterLookup_commit; assumption.
  - intros NewOpc' MI' Hfalse.
    apply performCustomAdjustments_false in Hfalse.
    destruct Hfalse as (_ & Hcase' & _). congruence.
Qed.

(** *** The frame of a rewrite *)

Lemma land_lor_absorb a b' : Z.land (Z.lor a b') b' = b'.
Proof.
  apply Z.bits_inj'. intros n _.
  rewrite Z.land_spec, Z.lor_spec.
  destruct (Z.testbit a n), (Z.testbit b' n); reflexivity.
Qed.

(** C8. A successful rewrite changes only this: the descriptor becomes
    the one TII gives for the short-form opcode of the selected table
    entry, the annotation flag AC_EVEX_2_VEX is or-ed into the printer
    flags, and, only for an opcode among the case labels of the adjustment
    switch, the last explicit operand, an immediate, gets a new immediate
    value.  The number of operands, every register operand and every
    operand other than that last explicit one are unchanged. *)
Theorem rewrite_frame P MI MI' :
  CompressEvexToVexImpl P MI = Ok (true, MI') →
  ∃ NewOpc tii,
    selectedEntry P MI = Some NewOpc ∧ NewOpc ≠ 0 ∧ TII P = Some tii ∧
    MCID MI' = get tii NewOpc ∧
    AsmPrinterFlags MI'
      = Z.lor (AsmPrinterFlags MI) (X86.AC_EVEX_2_VEX mod 256) ∧
    Z.land (AsmPrinterFlags MI') (X86.AC_EVEX_2_VEX mod 256)
      = X86.AC_EVEX_2_VEX mod 256 ∧
    length (Operands MI') = length (Operands MI) ∧
    (∀ i r, Operands MI !! i = Some (MO_Register r) →
            Operands MI' !! i = Some (MO_Register r)) ∧
    (∀ i, Z.of_nat i ≠ lastExplicitIdx MI →
          Operands MI' !! i = Operands MI !! i) ∧
    (Operands MI' = Operands MI ∨
     (getOpcode MI ∈ case_labels ∧
      ∃ v v', lastImmediate MI v ∧
              Operands MI'
              = <[Z.to_nat (lastExplicitIdx MI) := MO_Immediate v']>
                  (Operands MI))).
Proof.
  intros (NewOpc & tii & MI1 & Hcand & _ & Hadj & Htii & ->)
    %CompressEvexToVexImpl_true.
  apply candidate_Some in Hcand.
  destruct Hcand as (_ & _ & _ & Hsel & Hne).
  exists NewOpc, tii.
  split; [exact Hsel|]. split; [exact Hne|]. split; [exact Htii|].
  split; [reflexivity|].
  apply performCustomAdjustments_true in Hadj.
  destruct Hadj as [-> | (Hlab & v & v' & Himm & ->)]; simpl.
  - split; [reflexivity|]. split; [apply land_lor_absorb|].
    split; [reflexivity|]. split; [auto|]. split; [auto|].
    left. reflexivity.
  - split; [reflexivity|]. split; [apply land_lor_absorb|].
    split; [apply length_insert|].
    pose proof Himm as Hget. apply getOperand_Ok in Hget.
    destruct Hget as [Hpos Hlk].
    split; [|split].
    + intros i r Hi. rewrite list_lookup_insert_ne; [exact Hi|].
      intros <-. congruence.
    + intros i Hi. apply list_lookup_insert_ne. lia.
    + right. split; [exact Hlab|]. exists v, v'. auto.
Qed.

(** *** The ZMM assertion *)

Lemma selectedEntry_Some P MI NewOpc :
  selectedEntry P MI = Some NewOpc →
  EvexToVex128Table P !! getOpcode MI = Some NewOpc
    ∨ EvexToVex256Table P !! getOpcode MI = Some NewOpc.
Proof.
  unfold selectedEntry. destruct (widthClass MI); auto; discriminate.
Qed.

(** C9 (amended). Under the table invariant, an instruction of the
    function that reaches the register check names no ZMM register among
    its explicit operands, and usesExtendedRegister returns its boolean:
    the assertion does not fire.  With assertions enabled, a ZMM register
    operand that no high XMM/YMM register operand precedes makes
    usesExtendedRegister, and CompressEvexToVexImpl when it gets there,
    stop with the assertion failure, which is neither boolean result. *)
Theorem zmm_assertion P MF MI NewOpc :
  candidate P MI = Some NewOpc →
  (tablesHoldNoZMMInstruction P MF → MI ∈ instructions MF →
   namesRegister isZMMReg MI = false ∧
   usesExtendedRegister MI = Ok (namesRegister isHiRegIdx MI)) ∧
  (∀ pre r post,
     NDEBUG = false →
     explicit_operands MI = pre ++ MO_Register r :: post →
     existsb (regSel isHiRegIdx) pre = false →
     isZMMReg r = true →
     usesExtendedRegister MI = Abort (AssertionFailed assertMsg) ∧
     CompressEvexToVexImpl P MI = Abort (AssertionFailed assertMsg) ∧
     ∀ res, CompressEvexToVexImpl P MI ≠ Ok res).
Proof.
  intros Hcand. split.
  - intros Hinv Hin.
    assert (namesRegister isZMMReg MI = false) as Hnone.
    { destruct (namesRegister isZMMReg MI) eqn:Hz; [|reflexivity].
      destruct (Hinv MI Hin Hz) as [H128 H256].
      apply candidate_Some in Hcand.
      destruct Hcand as (_ & _ & _ & Hsel & _).
      apply selectedEntry_Some in Hsel. destruct Hsel; congruence. }
    split; [exact Hnone|].
    unfold usesExtendedRegister. rewrite namesRegister_eq.
    apply scanOperands_total. right. exact Hnone.
  - intros pre r post Hdebug Hops Hpre Hz.
    assert (usesExtendedRegister MI = Abort (AssertionFailed assertMsg))
      as Hscan.
    { unfold usesExtendedRegister. rewrite Hops.
      apply scanOperands_assert; assumption. }
    assert (CompressEvexToVexImpl P MI = Abort (AssertionFailed assertMsg))
      as Hrun.
    { rewrite CompressEvexToVexImpl_eq, Hcand.
      unfold afterLookup. rewrite Hscan. reflexivity. }
    split; [exact Hscan|]. split; [exact Hrun|].
    intros res. rewrite Hrun. discriminate.
Qed.

(** *** Running the pass twice *)

(** What the constructor puts into a table comes from the generated list. *)
Lemma fillTable_lookup_Some CompressTable EvexOp VexOp :
  fillTable CompressTable !! EvexOp = Some VexOp →
  ∃ Entry, Entry ∈ CompressTable ∧
           uint16 (EvexOpcode Entry) = EvexOp ∧
           uint16 (VexOpcode Entry) = VexOp.
Proof.
  unfold fillTable.
  assert (∀ (T : gmap Z Z),
    foldl (λ T Entry, AddTableEntry T (EvexOpcode Entry) (VexOpcode Entry))
          T CompressTable !! EvexOp = Some VexOp →
    T !! EvexOp = Some VexOp ∨
    ∃ Entry, Entry ∈ CompressTable ∧
             uint16 (EvexOpcode Entry) = EvexOp ∧
             uint16 (VexOpcode Entry) = VexOp) as Hgen.
  { induction CompressTable as [|E rest IH]; intros T; simpl.
    - auto.
    - intros Hlk. apply IH in Hlk.
      destruct Hlk as [Hlk | (Entry & Hin & Hk & Hv)].
      + unfold AddTableEntry in Hlk.
        destruct (decide (uint16 (EvexOpcode E) = EvexOp)) as [Heq|Hne].
        * rewrite Heq, lookup_insert_eq in Hlk. injection Hlk as Hv.
          right. exists E. split; [left | auto].
        * rewrite lookup_insert_ne in Hlk by exact Hne. auto.
      + right. exists Entry. split; [right; exact Hin | auto]. }
  intros Hlk. apply Hgen in Hlk. destruct Hlk as [Hlk | Hlk]; [|exact Hlk].
  rewrite lookup_empty in Hlk. discriminate Hlk.
Qed.

(** With a key that occurs once, the table holds that entry. *)
Lemma fillTable_lookup_last CompressTable Entry :
  fillTable (CompressTable ++ [Entry]) !! uint16 (EvexOpcode Entry)
  = Some (uint16 (VexOpcode Entry)).
Proof.
  unfold fillTable. rewrite foldl_snoc. unfold AddTableEntry at 1.
  apply lookup_insert_eq.
Qed.

(** A rewritten instruction is not EVEX-encoded any more. *)
Lemma rewritten_not_EVEX P tii MI MI' :
  shortFormsNotEVEX P tii → TII P = Some tii →
  CompressEvexToVexImpl P MI = Ok (true, MI') →
  isEVEXEncoded MI' = false.
Proof.
  intros Hinv Htii
    (NewOpc & tii' & MI1 & Hcand & _ & _ & Htii' & ->)
    %CompressEvexToVexImpl_true.
  rewrite Htii in Htii'. injection Htii' as <-.
  apply candidate_Some in Hcand. destruct Hcand as (_ & _ & _ & Hsel & Hne).
  apply selectedEntry_Some in Hsel.
  unfold isEVEXEncoded, committed. simpl.
  apply Z.eqb_neq. exact (Hinv _ _ Hsel Hne).
Qed.

(** Every instruction the function returns is left alone by a second
    call. *)
Lemma CompressEvexToVexImpl_again P tii MI b MI' :
  shortFormsNotEVEX P tii → TII P = Some tii →
  CompressEvexToVexImpl P MI = Ok (b, MI') →
  CompressEvexToVexImpl P MI' = Ok (false, MI').
Proof.
  intros Hinv Htii Hrun. destruct b.
  - apply CompressEvexToVexImpl_ineligible, candidate_None_cases. left.
    exact (rewritten_not_EVEX _ _ _ _ Hinv Htii Hrun).
  - pose proof (CompressEvexToVexImpl_false _ _ _ Hrun) as ->. exact Hrun.
Qed.

Lemma traverseBlock_again P tii MBB c c' MBB' :
  shortFormsNotEVEX P tii → TII P = Some tii →
  traverseBlock P MBB c = Ok (c', MBB') →
  ∀ c0, traverseBlock P MBB' c0 = Ok (c0, MBB').
Proof.
  intros Hinv Htii. revert c c' MBB'.
  induction MBB as [|MI rest IH]; intros c c' MBB'; simpl.
  - intros [= _ <-] c0. reflexivity.
  - intros Hrun c0. inv_bind Hrun. destruct a as [b MI1].
    inv_bind Hrun. destruct a as [c1 rest1]. injection Hrun as _ <-.
    simpl.
    rewrite (CompressEvexToVexImpl_again _ _ _ _ _ Hinv Htii Ha). simpl.
    rewrite orb_false_r. rewrite (IH _ _ _ Ha0 c0). reflexivity.
Qed.

Lemma traverseBlocks_again P tii MBBs c c' MBBs' :
  shortFormsNotEVEX P tii → TII P = Some tii →
  traverseBlocks P MBBs c = Ok (c', MBBs') →
  ∀ c0, traverseBlocks P MBBs' c0 = Ok (c0, MBBs').
Proof.
  intros Hinv Htii. revert c c' MBBs'.
  induction MBBs as [|MBB rest IH]; intros c c' MBBs'; simpl.
  - intros [= _ <-] c0. reflexivity.
  - intros Hrun c0. inv_bind Hrun. destruct a as [c1 MBB1].
    inv_bind Hrun. destruct a as [c2 rest1]. injection Hrun as _ <-.
    simpl.
    rewrite (traverseBlock_again _ _ _ _ _ _ Hinv Htii Ha c0). simpl.
    rewrite (IH _ _ _ Ha0 c0). reflexivity.
Qed.

(** C2. Running the pass twice gives what running it once gives.  Given
    that the short-form opcodes of the tables are not EVEX-encoded, if the
    first run returns, then every instruction it rewrote fails the
    encoding-class check, and the second run, on the resulting function
    with the resulting pass object, returns false and that same
    function. *)
Theorem pass_idempotent P MF P1 Changed MF1 :
  shortFormsNotEVEX P (getInstrInfo (getSubtarget MF)) →
  runOnMachineFunction P MF = (P1, Ok (Changed, MF1)) →
  runOnMachineFunction P1 MF1 = (P1, Ok (false, MF1)) ∧
  (∀ MI MI', CompressEvexToVexImpl P1 MI = Ok (true, MI') →
             isEVEXEncoded MI' = false ∧
             CompressEvexToVexImpl P1 MI' = Ok (false, MI')).
Proof.
  intros Hinv. unfold runOnMachineFunction.
  set (P0 := setTII P (getInstrInfo (getSubtarget MF))).
  assert (shortFormsNotEVEX P0 (getInstrInfo (getSubtarget MF))) as Hinv0
    by exact Hinv.
  assert (TII P0 = Some (getInstrInfo (getSubtarget MF))) as Htii0
    by reflexivity.
  assert (∀ MI MI', CompressEvexToVexImpl P0 MI = Ok (true, MI') →
             isEVEXEncoded MI' = false ∧
             CompressEvexToVexImpl P0 MI' = Ok (false, MI')) as Hre.
  { intros MI MI' Hrun. split.
    - exact (rewritten_not_EVEX _ _ _ _ Hinv0 Htii0 Hrun).
    - exact (CompressEvexToVexImpl_again _ _ _ _ _ Hinv0 Htii0 Hrun). }
  assert (setTII P0 (getInstrInfo (getSubtarget MF)) = P0) as Hset
    by reflexivity.
  destruct (hasAVX512 (getSubtarget MF)) eqn:Havx; simpl.
  - intros [= <- Hrun]. split; [|exact Hre].
    inv_bind Hrun. destruct a as [c MBBs]. injection Hrun as _ <-.
    simpl. rewrite Havx, Hset. simpl.
    rewrite (traverseBlocks_again _ _ _ _ _ _ Hinv0 Htii0 Ha false).
    reflexivity.
  - intros [= <- _ <-]. split; [|exact Hre].
    rewrite Havx, Hset. reflexivity.
Qed.

(** The run of the pass on a function of an AVX-512 target, from the run
    of its loops. *)
Lemma runOnMachineFunction_eq P MF Changed MBBs :
  hasAVX512 (getSubtarget MF) = true →
  traverseBlocks (setTII P (getInstrInfo (getSubtarget MF))) (Blocks MF) false
    = Ok (Changed, MBBs) →
  runOnMachineFunction P MF
  = (setTII P (getInstrInfo (getSubtarget MF)),
     Ok (Changed, {| getSubtarget := getSubtarget MF; Blocks := MBBs |})).
Proof.
  intros Havx Hloop. unfold runOnMachineFunction.
  rewrite Havx, Hloop. reflexivity.
Qed.

(** ** Further properties of the pass *)

(** *** The loops of runOnMachineFunction *)

Lemma traverseBlock_inv P MBB c c' MBB' :
  traverseBlock P MBB c = Ok (c', MBB') →
  Forall2 (compressesTo P) MBB MBB' ∧
  (c' = true ↔
   c = true ∨ ∃ MI MI', MI ∈ MBB ∧
                        CompressEvexToVexImpl P MI = Ok (true, MI')).
Proof.
  revert c c' MBB'. induction MBB as [|MI rest IH]; intros c c' MBB'; simpl.
  - intros [= <- <-]. split; [constructor|]. split; [auto|].
    intros [Hc | (MI & MI' & Hin & _)]; [exact Hc|].
    apply elem_of_nil in Hin. contradiction.
  - intros Hrun. inv_bind Hrun. destruct a as [b MI1].
    inv_bind Hrun. destruct a as [c1 rest1]. injection Hrun as <- <-.
    apply IH in Ha0. destruct Ha0 as [Hall Hflag].
    split; [constructor; [exists b; exact Ha | exact Hall]|].
    rewrite Hflag, orb_true_iff. split.
    + intros [[Hc | ->] | (MI0 & MI' & Hin & Hrun)].
      * left. exact Hc.
      * right. exists MI, MI1. split; [left | exact Ha].
      * right. exists MI0, MI'. split; [right; exact Hin | exact Hrun].
    + intros [Hc | (MI0 & MI' & Hin & Hrun)]; [auto|].
      apply elem_of_cons in Hin. destruct Hin as [-> | Hin].
      * rewrite Hrun in Ha. injection Ha as <- _. auto.
      * right. exists MI0, MI'. auto.
Qed.

Lemma traverseBlocks_inv P MBBs c c' MBBs' :
  traverseBlocks P MBBs c = Ok (c', MBBs') →
  Forall2 (Forall2 (compressesTo P)) MBBs MBBs' ∧
  (c' = true ↔
   c = true ∨ ∃ MI MI', MI ∈ concat MBBs ∧
                        CompressEvexToVexImpl P MI = Ok (true, MI')).
Proof.
  revert c c' MBBs'.
  induction MBBs as [|MBB rest IH]; intros c c' MBBs'; simpl.
  - intros [= <- <-]. split; [constructor|]. split; [auto|].
    intros [Hc | (MI & MI' & Hin & _)]; [exact Hc|].
    apply elem_of_nil in Hin. contradiction.
  - intros Hrun. inv_bind Hrun. destruct a as [c1 MBB1].
    inv_bind Hrun. destruct a as [c2 rest1]. injection Hrun as <- <-.
    apply traverseBlock_inv in Ha. destruct Ha as [Hblock Hflag1].
    apply IH in Ha0. destruct Ha0 as [Hall Hflag2].
    split; [constructor; assumption|].
    rewrite Hflag2, Hflag1. split.
    + intros [[Hc | (MI & MI' & Hin & Hrun)] | (MI & MI' & Hin & Hrun)].
      * left. exact Hc.
      * right. exists MI, MI'. split; [|exact Hrun].
        apply elem_of_app. left. exact Hin.
      * right. exists MI, MI'. split; [|exact Hrun].
        apply elem_of_app. right. exact Hin.
    + intros [Hc | (MI & MI' & Hin & Hrun)]; [auto|].
      apply elem_of_app in Hin. destruct Hin as [Hin | Hin].
      * left. right. exists MI, MI'. auto.
      * right. exists MI, MI'. auto.
Qed.

Lemma traverseBlock_returns P MBB c :
  Forall (λ MI, ∃ res, CompressEvexToVexImpl P MI = Ok res) MBB →
  ∃ c' MBB', traverseBlock P MBB c = Ok (c', MBB').
Proof.
  intros Hall. revert c. induction Hall as [|MI rest [[b MI1] Hrun] _ IH];
    intros c; simpl.
  - eauto.
  - rewrite Hrun. simpl. destruct (IH (c || b)) as (c' & rest' & ->).
    simpl. eauto.
Qed.

Lemma traverseBlocks_returns P MBBs c :
  Forall (λ MI, ∃ res, CompressEvexToVexImpl P MI = Ok res) (concat MBBs) →
  ∃ c' MBBs', traverseBlocks P MBBs c = Ok (c', MBBs').
Proof.
  revert c. induction MBBs as [|MBB rest IH]; intros c; simpl.
  - eauto.
  - intros [Hblock Hrest]%Forall_app.
    destruct (traverseBlock_returns P MBB c Hblock) as (c1 & MBB1 & ->).
    simpl. destruct (IH c1 Hrest) as (c2 & rest1 & ->). simpl. eauto.
Qed.

Lemma compressesTo_returns P MBBs MBBs' :
  Forall2 (Forall2 (compressesTo P)) MBBs MBBs' →
  Forall (λ MI, ∃ res, CompressEvexToVexImpl P MI = Ok res) (concat MBBs).
Proof.
  induction 1 as [|MBB MBB' rest rest' Hblock _ IH]; simpl; [constructor|].
  apply Forall_app. split; [|exact IH].
  induction Hblock as [|MI MI1 ? ? [b Hrun] _ IHb]; constructor; eauto.
Qed.

Lemma runOnMachineFunction_inv P MF P1 Changed MF1 :
  hasAVX512 (getSubtarget MF) = true →
  runOnMachineFunction P MF = (P1, Ok (Changed, MF1)) →
  P1 = setTII P (getInstrInfo (getSubtarget MF)) ∧
  getSubtarget MF1 = getSubtarget MF ∧
  Forall2 (Forall2 (compressesTo P1)) (Blocks MF) (Blocks MF1) ∧
  (Changed = true ↔
   ∃ MI MI', MI ∈ instructions MF ∧
             CompressEvexToVexImpl P1 MI = Ok (true, MI')).
Proof.
  intros Havx. unfold runOnMachineFunction. rewrite Havx. simpl.
  intros [= <- Hrun]. inv_bind Hrun. destruct a as [c MBBs].
  injection Hrun as <- <-. simpl.
  apply traverseBlocks_inv in Ha. destruct Ha as [Hall Hflag].
  split; [reflexivity|]. split; [reflexivity|]. split; [exact Hall|].
  rewrite Hflag. unfold instructions. split.
  - intros [Hc | Hex]; [discriminate Hc | exact Hex].
  - auto.
Qed.

(** X1. On an AVX-512 target a run that returns has applied
    CompressEvexToVexImpl to every instruction where it stands: block by
    block and position by position the new instruction is what the call
    on the old one hands back, the subtarget is kept, and the result is
    true exactly when some call returned true. *)
Theorem run_is_pointwise P MF P1 Changed MF1 :
  hasAVX512 (getSubtarget MF) = true →
  runOnMachineFunction P MF = (P1, Ok (Changed, MF1)) →
  getSubtarget MF1 = getSubtarget MF ∧
  Forall2 (Forall2 (compressesTo P1)) (Blocks MF) (Blocks MF1) ∧
  (Changed = true ↔
   ∃ MI MI', MI ∈ instructions MF ∧
             CompressEvexToVexImpl P1 MI = Ok (true, MI')).
Proof.
  intros Havx Hrun.
  exact (proj2 (runOnMachineFunction_inv _ _ _ _ _ Havx Hrun)).
Qed.

(** X2. A run returns a result, rather than stopping on a fault, exactly
    when the target lacks AVX-512 (no instruction is then looked at) or
    CompressEvexToVexImpl returns on every instruction of the function. *)
Theorem run_returns_iff P MF :
  (∃ Changed MF1, snd (runOnMachineFunction P MF) = Ok (Changed, MF1)) ↔
  hasAVX512 (getSubtarget MF) = false ∨
  Forall (λ MI, ∃ res,
            CompressEvexToVexImpl
              (setTII P (getInstrInfo (getSubtarget MF))) MI = Ok res)
         (instructions MF).
Proof.
  unfold runOnMachineFunction, instructions.
  destruct (hasAVX512 (getSubtarget MF)) eqn:Havx; simpl.
  - split.
    + intros (c & MF1 & Hrun). right. inv_bind Hrun. destruct a as [c1 MBBs].
      apply traverseBlocks_inv in Ha. destruct Ha as [Hall _].
      exact (compressesTo_returns _ _ _ Hall).
    + intros [Hno | Hall]; [discriminate Hno|].
      destruct (traverseBlocks_returns _ _ false Hall) as (c & MBBs & ->).
      simpl. eauto.
  - split; [auto | eauto].
Qed.

(** X3. When a run reports no change, the function it returns is the
    function it was given. *)
Theorem run_false_means_untouched P MF P1 MF1 :
  runOnMachineFunction P MF = (P1, Ok (false, MF1)) → MF1 = MF.
Proof.
  unfold runOnMachineFunction.
  destruct (hasAVX512 (getSubtarget MF)); simpl;
    [|intros [= _ <-]; reflexivity].
  intros [= <- Hrun]. inv_bind Hrun. destruct a as [c MBBs].
  injection Hrun as -> <-.
  apply traverseBlocks_inv in Ha. destruct Ha as [Hall Hflag].
  assert (MBBs = Blocks MF) as ->; [|destruct MF; reflexivity].
  assert (∀ MI, MI ∈ concat (Blocks MF) →
                ∀ b MI1, CompressEvexToVexImpl
                           (setTII P (getInstrInfo (getSubtarget MF))) MI
                         = Ok (b, MI1) → MI1 = MI) as Hkeep.
  { intros MI Hin b MI1 Hrun. destruct b.
    - destruct Hflag as [_ Hflag]. discriminate Hflag. right. eauto.
    - exact (CompressEvexToVexImpl_false _ _ _ Hrun). }
  clear Hflag. induction Hall as [|MBB MBB1 rest rest1 Hblock _ IH];
    [reflexivity|].
  simpl in Hkeep. f_equal.
  - assert (∀ MI, MI ∈ MBB →
                  ∀ b MI1, CompressEvexToVexImpl
                             (setTII P (getInstrInfo (getSubtarget MF))) MI
                           = Ok (b, MI1) → MI1 = MI) as Hkeep'.
    { intros MI Hin. apply Hkeep. apply elem_of_app. left. exact Hin. }
    clear Hkeep IH. induction Hblock as [|MI MI1 ? ? [b Hrun] _ IHb];
      [reflexivity|].
    f_equal.
    + exact (Hkeep' MI ltac:(left) b MI1 Hrun).
    + apply IHb. intros MI0 Hin. apply Hkeep'. right. exact Hin.
  - apply IH. intros MI Hin. apply Hkeep. apply elem_of_app. right.
    exact Hin.
Qed.

(** X4. Conversely, when the short-form opcodes of the tables are not
    EVEX-encoded, a run that reports a change returns a function that
    differs from the one it was given. *)
Theorem run_true_means_changed P MF P1 MF1 :
  shortFormsNotEVEX P (getInstrInfo (getSubtarget MF)) →
  runOnMachineFunction P MF = (P1, Ok (true, MF1)) → MF1 ≠ MF.
Proof.
  intros Hinv Hrun Heq. subst MF1.
  destruct (hasAVX512 (getSubtarget MF)) eqn:Havx.
  - destruct (runOnMachineFunction_inv _ _ _ _ _ Havx Hrun)
      as (Hp1 & _ & Hall & Hflag).
    destruct Hflag as [Hflag _].
    destruct (Hflag eq_refl) as (MI & MI' & Hin & Hcall).
    assert (isEVEXEncoded MI' = false) as Hvex.
    { apply (rewritten_not_EVEX P1 (getInstrInfo (getSubtarget MF)) MI);
        [subst P1; exact Hinv | subst P1; reflexivity | exact Hcall]. }
    assert (MI' = MI) as ->.
    { assert (Forall (λ MI, compressesTo P1 MI MI) (instructions MF))
        as Hdiag.
      { unfold instructions. clear -Hall.
        induction (Blocks MF) as [|MBB rest IH]; simpl; [constructor|].
        apply Forall2_cons in Hall. destruct Hall as [Hblock Hrest].
        apply Forall_app. split; [|exact (IH Hrest)].
        clear -Hblock. induction MBB as [|MI0 MBB IHb]; [constructor|].
        apply Forall2_cons in Hblock. destruct Hblock as [H0 Htl].
        constructor; [exact H0 | exact (IHb Htl)]. }
      rewrite Forall_forall in Hdiag. destruct (Hdiag MI Hin) as [b Hsame].
      rewrite Hcall in Hsame. injection Hsame as _ ->. reflexivity. }
    apply CompressEvexToVexImpl_true in Hcall.
    destruct Hcall as (NewOpc & _ & _ & Hcand & _).
    apply candidate_Some in Hcand. destruct Hcand as (Henc & _).
    congruence.
  - unfold runOnMachineFunction in Hrun. rewrite Havx in Hrun.
    simpl in Hrun. discriminate Hrun.
Qed.



(** X6. A run leaves the two tables of the pass object as they were and
    overwrites TII first, so nothing is carried from one function to the
    next: the result on a function is the same after any earlier run. *)
Theorem run_carries_no_state P MF MF' :
  EvexToVex128Table (fst (runOnMachineFunction P MF)) = EvexToVex128Table P ∧
  EvexToVex256Table (fst (runOnMachineFunction P MF)) = EvexToVex256Table P ∧
  TII (fst (runOnMachineFunction P MF))
    = Some (getInstrInfo (getSubtarget MF)) ∧
  runOnMachineFunction (fst (runOnMachineFunction P MF)) MF'
    = runOnMachineFunction P MF'.
Proof.
  assert (fst (runOnMachineFunction P MF)
          = setTII P (getInstrInfo (getSubtarget MF))) as ->.
  { unfold runOnMachineFunction.
    destruct (hasAVX512 (getSubtarget MF)); reflexivity. }
  repeat split; reflexivity.
Qed.

(** *** The tables the constructor builds *)

Lemma fillTable_snoc CompressTable Entry :
  fillTable (CompressTable ++ [Entry])
  = <[entryKey Entry := entryValue Entry]> (fillTable CompressTable).
Proof. unfold fillTable. rewrite foldl_snoc. reflexivity. Qed.

(** X7. The table built from a generated list maps a key to the value of
    the last entry of the list filed under that key (a later entry
    overwrites an earlier one), and misses exactly the keys no entry is
    filed under; the table of the empty list is empty. *)
Theorem fillTable_last_write_wins CompressTable EvexOp :
  fillTable CompressTable !! EvexOp
    = entryValue <$> last (filter (λ Entry, entryKey Entry = EvexOp)
                                  CompressTable) ∧
  (fillTable CompressTable !! EvexOp = None ↔
   ∀ Entry, Entry ∈ CompressTable → entryKey Entry ≠ EvexOp).
Proof.
  assert (fillTable CompressTable !! EvexOp
          = entryValue <$> last (filter (λ Entry, entryKey Entry = EvexOp)
                                        CompressTable)) as Hlast.
  { induction CompressTable as [|Entry rest IH] using rev_ind.
    - unfold fillTable. simpl. apply lookup_empty.
    - rewrite fillTable_snoc, filter_app.
      destruct (decide (entryKey Entry = EvexOp)) as [Heq|Hne].
      + rewrite filter_cons_True by exact Heq. rewrite filter_nil, last_snoc.
        rewrite Heq. simpl. apply lookup_insert_eq.
      + rewrite filter_cons_False by exact Hne. rewrite filter_nil, app_nil_r.
        rewrite lookup_insert_ne by exact Hne. exact IH. }
  split; [exact Hlast|]. rewrite Hlast, fmap_None, last_None. split.
  - intros Hnil Entry Hin Hkey.
    eapply filter_nil_not_elem_of; [exact Hnil | exact Hkey | exact Hin].
  - intros Hnone.
    destruct (filter (λ Entry, entryKey Entry = EvexOp) CompressTable)
      as [|Entry tl] eqn:Hf; [reflexivity|].
    assert (Entry ∈ filter (λ Entry, entryKey Entry = EvexOp) CompressTable)
      as Hin by (rewrite Hf; left).
    apply list_elem_of_filter in Hin. destruct Hin as [Hkey Hin].
    exfalso. exact (Hnone Entry Hin Hkey).
Qed.

(** X8. When no two entries of the generated list are filed under the
    same key, the table holds the list: a lookup yields a value exactly
    when the list has an entry with that key and that value. *)
Theorem fillTable_distinct_keys CompressTable EvexOp VexOp :
  NoDup (entryKey <$> CompressTable) →
  (fillTable CompressTable !! EvexOp = Some VexOp ↔
   ∃ Entry, Entry ∈ CompressTable ∧
            entryKey Entry = EvexOp ∧ entryValue Entry = VexOp).
Proof.
  intros Hdistinct. split; [apply fillTable_lookup_Some|].
  intros (Entry & Hin & <- & <-).
  induction CompressTable as [|Last rest IH] using rev_ind.
  - apply elem_of_nil in Hin. contradiction.
  - rewrite fmap_app in Hdistinct. apply NoDup_app in Hdistinct.
    destruct Hdistinct as (Hrest & Hfresh & _).
    rewrite fillTable_snoc. apply elem_of_app in Hin.
    destruct Hin as [Hin | Hin].
    + assert (entryKey Last ≠ entryKey Entry) as Hne.
      { intros Heq. apply (Hfresh (entryKey Entry)).
        - apply list_elem_of_fmap. exists Entry. auto.
        - simpl. rewrite Heq. left. }
      rewrite lookup_insert_ne by exact Hne. exact (IH Hrest Hin).
    + apply list_elem_of_singleton in Hin. subst Last.
      apply lookup_insert_eq.
Qed.

(** *** The register scan, in full *)

(** X9. usesExtendedRegister returns true exactly when an explicit register
    operand lies in XMM16..XMM31 or YMM16..YMM31.  Its only fault is the
    ZMM assertion, which needs a build with assertions and a ZMM register
    among the explicit operands; with NDEBUG, or without such an operand,
    it returns.  With NDEBUG a ZMM register is therefore no obstacle. *)
Theorem usesExtendedRegister_characterised MI :
  (∀ b, usesExtendedRegister MI = Ok b → b = namesRegister isHiRegIdx MI) ∧
  (∀ f, usesExtendedRegister MI = Abort f →
        f = AssertionFailed assertMsg ∧ NDEBUG = false ∧
        namesRegister isZMMReg MI = true) ∧
  (NDEBUG = true ∨ namesRegister isZMMReg MI = false →
   usesExtendedRegister MI = Ok (namesRegister isHiRegIdx MI)).
Proof.
  unfold usesExtendedRegister. rewrite !namesRegister_eq.
  split; [|split].
  - intros b. apply scanOperands_Ok.
  - intros f. apply scanOperands_Abort.
  - apply scanOperands_total.
Qed.

Lemma scanOperands_filter MOs :
  scanOperands MOs = scanOperands (filter (λ MO, isReg MO = true) MOs).
Proof.
  induction MOs as [|MO rest IH]; [reflexivity|].
  destruct MO as [r| |].
  - rewrite filter_cons_True by reflexivity. simpl. rewrite IH. reflexivity.
  - rewrite filter_cons_False by discriminate. exact IH.
  - rewrite filter_cons_False by discriminate. exact IH.
Qed.

(** X10. The scan looks at the explicit register operands and at nothing
    else: two instructions whose explicit operands hold the same registers
    in the same order get the same answer, whatever immediates or other
    operands stand between them; and operands behind the explicit ones
    (the implicit ones) do not count, even high registers. *)
Theorem scan_sees_explicit_registers_only MI :
  (∀ MI', filter (λ MO, isReg MO = true) (explicit_operands MI')
          = filter (λ MO, isReg MO = true) (explicit_operands MI) →
          usesExtendedRegister MI' = usesExtendedRegister MI) ∧
  (∀ implicit,
     (getNumExplicitOperands MI ≤ length (Operands MI))%nat →
     usesExtendedRegister
       {| MCID := MCID MI; Operands := Operands MI ++ implicit;
          AsmPrinterFlags := AsmPrinterFlags MI |}
     = usesExtendedRegister MI).
Proof.
  split.
  - intros MI' Hregs. unfold usesExtendedRegister.
    rewrite (scanOperands_filter (explicit_operands MI')), Hregs.
    symmetry. apply scanOperands_filter.
  - intros implicit Hlen. unfold usesExtendedRegister, explicit_operands.
    unfold getNumExplicitOperands in *. simpl.
    rewrite take_app_le by exact Hlen. reflexivity.
Qed.

(** *** The immediate adjustments, in full *)

Lemma wrap64s_small z : - 2 ^ 63 ≤ z < 2 ^ 63 → wrap64s z = z.
Proof. intros Hz. unfold wrap64s. rewrite Z.mod_small; lia. Qed.

Lemma switchCase_VALIGN Opc :
  Opc ∈ VALIGN_cases → switchCase Opc = CaseVALIGN.
Proof.
  intros Hin%isCase_true. unfold switchCase. rewrite Hin. reflexivity.
Qed.

Lemma assert_holds cond msg :
  NDEBUG = true ∨ cond = true → assert cond msg = Ok ().
Proof.
  unfold assert. intros [-> | ->]; rewrite ?orb_true_r; reflexivity.
Qed.

Lemma performCustomAdjustments_VALIGN MI NewOpc v :
  getOpcode MI ∈ VALIGN_cases →
  lastImmediate MI v →
  NDEBUG = true ∨ NewOpc ∈ [X86.VPALIGNRrri; X86.VPALIGNRrmi] →
  performCustomAdjustments MI NewOpc =
  Ok (true,
      withOperand MI (lastExplicitIdx MI)
        (MO_Immediate
           (wrap64s (v * (if (getOpcode MI =? X86.VALIGNQZ128rri)
                             || (getOpcode MI =? X86.VALIGNQZ128rmi)
                          then 8 else 4))))).
Proof.
  intros Hopc Himm Hassert. unfold performCustomAdjustments.
  rewrite (switchCase_VALIGN _ Hopc).
  rewrite assert_holds.
  - simpl. rewrite Himm. simpl.
    rewrite (setImm_immediate _ _ _ _ Himm). reflexivity.
  - destruct Hassert as [Hnd | Hin]; [left; exact Hnd | right].
    rewrite !elem_of_cons, elem_of_nil in Hin.
    destruct Hin as [-> | [-> | []]];
      rewrite Z.eqb_refl, ?orb_true_r; reflexivity.
Qed.

(** X11. The scale transform.  An alignment instruction that reaches the
    adjustment with the immediate v and a VPALIGNR opcode as new opcode is
    rewritten with the immediate v * 8 if it is one of the two VALIGNQ
    opcodes and v * 4 if it is one of the two VALIGND opcodes (products
    within int64); nothing else of its operands changes. *)
Theorem align_scale_transform P MI NewOpc tii v :
  NoDup case_labels →
  lastImmediate MI v →
  NDEBUG = true ∨ NewOpc ∈ [X86.VPALIGNRrri; X86.VPALIGNRrmi] →
  candidate P MI = Some NewOpc →
  usesExtendedRegister MI = Ok false →
  TII P = Some tii →
  (getOpcode MI ∈ [X86.VALIGNQZ128rri; X86.VALIGNQZ128rmi] →
   - 2 ^ 63 ≤ v * 8 < 2 ^ 63 →
   CompressEvexToVexImpl P MI
   = Ok (true, committed (withOperand MI (lastExplicitIdx MI)
                                      (MO_Immediate (v * 8)))
                         (get tii NewOpc))) ∧
  (getOpcode MI ∈ [X86.VALIGNDZ128rri; X86.VALIGNDZ128rmi] →
   - 2 ^ 63 ≤ v * 4 < 2 ^ 63 →
   CompressEvexToVexImpl P MI
   = Ok (true, committed (withOperand MI (lastExplicitIdx MI)
                                      (MO_Immediate (v * 4)))
                         (get tii NewOpc))).
Proof.
  intros Hdistinct Himm Hassert Hcand Hext Htii.
  assert (NoDup VALIGN_cases) as Hvalign.
  { unfold case_labels in Hdistinct. apply NoDup_app in Hdistinct. tauto. }
  unfold VALIGN_cases in Hvalign.
  rewrite !NoDup_cons, !not_elem_of_cons in Hvalign.
  destruct Hvalign as ((_ & Hd1q1 & Hd1q2 & _) & (Hd2q1 & Hd2q2 & _) & _).
  rewrite CompressEvexToVexImpl_eq, Hcand. split.
  - intros Hopc Hrange.
    assert (getOpcode MI ∈ VALIGN_cases) as Hin.
    { unfold VALIGN_cases. rewrite !elem_of_cons in *. tauto. }
    pose proof (performCustomAdjustments_VALIGN MI NewOpc v Hin Himm Hassert)
      as Hadj.
    assert ((getOpcode MI =? X86.VALIGNQZ128rri)
            || (getOpcode MI =? X86.VALIGNQZ128rmi) = true) as Hq.
    { rewrite !elem_of_cons, elem_of_nil in Hopc.
      destruct Hopc as [-> | [-> | []]];
        rewrite Z.eqb_refl, ?orb_true_r; reflexivity. }
    rewrite Hq, (wrap64s_small _ Hrange) in Hadj.
    exact (afterLookup_commit _ _ _ _ _ Hext Hadj Htii).
  - intros Hopc Hrange.
    assert (getOpcode MI ∈ VALIGN_cases) as Hin.
    { unfold VALIGN_cases. rewrite !elem_of_cons in *. tauto. }
    pose proof (performCustomAdjustments_VALIGN MI NewOpc v Hin Himm Hassert)
      as Hadj.
    assert ((getOpcode MI =? X86.VALIGNQZ128rri)
            || (getOpcode MI =? X86.VALIGNQZ128rmi) = false) as Hd.
    { apply orb_false_iff. rewrite !Z.eqb_neq.
      rewrite !elem_of_cons, elem_of_nil in Hopc.
      destruct Hopc as [-> | [-> | []]]; auto. }
    rewrite Hd, (wrap64s_small _ Hrange) in Hadj.
    exact (afterLookup_commit _ _ _ _ _ Hext Hadj Htii).
Qed.

Lemma laneSelectImm_mod4 v : laneSelectImm v = laneSelectImm (v mod 4).
Proof.
  unfold laneSelectImm. change 4 with (2 ^ 2).
  rewrite <- Z.land_ones by lia. rewrite <- !Z.land_assoc. reflexivity.
Qed.

(** X12. The lane-select remap reads only bits 1 and 0 of the immediate
    and validates nothing: for every immediate v of a lane-select
    instruction the adjustment succeeds and writes the value it writes for
    v mod 4, one of 0x20, 0x21, 0x30, 0x31, namely
    0x20 + 16 * bit1(v) + bit0(v). *)
Theorem lane_select_reads_two_bits MI NewOpc v :
  NoDup case_labels →
  getOpcode MI ∈ VSHUF_cases →
  lastImmediate MI v →
  NDEBUG = true
    ∨ NewOpc ∈ [X86.VPERM2F128rr; X86.VPERM2I128rr;
                X86.VPERM2F128rm; X86.VPERM2I128rm] →
  performCustomAdjustments MI NewOpc
  = Ok (true, withOperand MI (lastExplicitIdx MI)
                          (MO_Immediate (laneSelectImm (v mod 4)))) ∧
  laneSelectImm (v mod 4) ∈ [0x20; 0x21; 0x30; 0x31] ∧
  laneSelectImm (v mod 4)
  = 0x20 + 16 * Z.b2z (Z.testbit v 1) + Z.b2z (Z.testbit v 0).
Proof.
  intros Hdistinct Hopc Himm Hassert.
  pose proof (switchCase_VSHUF _ Hdistinct Hopc) as Hcase.
  rewrite <- laneSelectImm_mod4.
  split; [exact (performCustomAdjustments_VSHUF _ _ _ Hcase Himm Hassert)|].
  assert (Z.testbit v 0 = Z.testbit (v mod 4) 0) as ->.
  { change 4 with (2 ^ 2). rewrite Z.mod_pow2_bits_low by lia. reflexivity. }
  assert (Z.testbit v 1 = Z.testbit (v mod 4) 1) as ->.
  { change 4 with (2 ^ 2). rewrite Z.mod_pow2_bits_low by lia. reflexivity. }
  rewrite (laneSelectImm_mod4 v).
  pose proof (Z.mod_pos_bound v 4 ltac:(lia)) as Hr.
  assert (v mod 4 = 0 ∨ v mod 4 = 1 ∨ v mod 4 = 2 ∨ v mod 4 = 3)
    as [-> | [-> | [-> | ->]]] by lia;
    (split; [compute_done | reflexivity]).
Qed.

(** X13. The range validation accepts exactly the immediates 0..15: a
    rounding instruction that reaches the adjustment is rewritten, operands
    untouched, when its immediate v satisfies 0 <= v < 16, and is left
    alone with result false for every other int64 value, negative ones and
    ones above 255 included. *)
Theorem rounding_accepts_exactly_0_to_15 P MI NewOpc tii v :
  NoDup case_labels →
  getOpcode MI ∈ VRNDSCALE_cases →
  lastImmediate MI v →
  candidate P MI = Some NewOpc →
  usesExtendedRegister MI = Ok false →
  TII P = Some tii →
  CompressEvexToVexImpl P MI
  = if bool_decide (0 ≤ v < 16)
    then Ok (true, committed MI (get tii NewOpc))
    else Ok (false, MI).
Proof.
  intros Hdistinct Hopc Himm Hcand Hext Htii.
  pose proof (switchCase_VRNDSCALE _ Hdistinct Hopc) as Hcase.
  pose proof (performCustomAdjustments_VRNDSCALE MI NewOpc v Hcase Himm)
    as Hadj.
  rewrite CompressEvexToVexImpl_eq, Hcand.
  destruct (bool_decide_reflect (0 ≤ v < 16)) as [Hin | Hout].
  - apply low_nibble_iff, Z.eqb_eq in Hin. rewrite Hin in Hadj.
    exact (afterLookup_commit _ _ _ _ _ Hext Hadj Htii).
  - assert (Z.land v 0xf ≠ v) as Hne
      by (intros Heq; apply Hout, low_nibble_iff; exact Heq).
    apply Z.eqb_neq in Hne. rewrite Hne in Hadj.
    unfold afterLookup. rewrite Hext. simpl. rewrite Hadj. reflexivity.
Qed.

(** X14. An instruction whose opcode is none of the case labels gets the
    plain opcode swap: if it is eligible with a nonzero table entry, names
    no high XMM/YMM register and cannot trip the ZMM assertion, it is
    rewritten to the descriptor of the new opcode with the flag set and
    all operands as they were. *)
Theorem plain_opcode_swap P MI NewOpc tii :
  getOpcode MI ∉ case_labels →
  candidate P MI = Some NewOpc →
  namesRegister isHiRegIdx MI = false →
  NDEBUG = true ∨ namesRegister isZMMReg MI = false →
  TII P = Some tii →
  CompressEvexToVexImpl P MI = Ok (true, committed MI (get tii NewOpc)) ∧
  MCID (committed MI (get tii NewOpc)) = get tii NewOpc ∧
  Operands (committed MI (get tii NewOpc)) = Operands MI.
Proof.
  intros Hopc Hcand Hhi Hassert Htii.
  split; [|split; reflexivity].
  rewrite CompressEvexToVexImpl_eq, Hcand.
  apply afterLookup_commit; [| |exact Htii].
  - unfold usesExtendedRegister.
    rewrite (scanOperands_total _ Hassert), <- namesRegister_eq, Hhi.
    reflexivity.
  - unfold performCustomAdjustments.
    rewrite (switchCase_default _ Hopc). reflexivity.
Qed.

(** X15. The new opcode enters performCustomAdjustments through its
    assertions only.  With NDEBUG, and for an opcode of the VRNDSCALE group
    or outside the case labels, the outcome is the same for every new
    opcode.  With assertions, an alignment opcode whose new opcode is not
    VPALIGNRrri or VPALIGNRrmi stops with the assertion failure, and so
    does the whole rewrite once it gets there. *)
Theorem new_opcode_only_asserted P MI NewOpc :
  (∀ NewOpc',
     NDEBUG = true ∨ switchCase (getOpcode MI) = CaseVRNDSCALE
       ∨ switchCase (getOpcode MI) = CaseDefault →
     performCustomAdjustments MI NewOpc'
     = performCustomAdjustments MI NewOpc) ∧
  (NDEBUG = false →
   getOpcode MI ∈ VALIGN_cases →
   NewOpc ∉ [X86.VPALIGNRrri; X86.VPALIGNRrmi] →
   performCustomAdjustments MI NewOpc
   = Abort (AssertionFailed "Unexpected new opcode!") ∧
   (candidate P MI = Some NewOpc → usesExtendedRegister MI = Ok false →
    CompressEvexToVexImpl P MI
    = Abort (AssertionFailed "Unexpected new opcode!"))).
Proof.
  split.
  - intros NewOpc' Hwhy. unfold performCustomAdjustments.
    destruct Hwhy as [Hnd | [-> | ->]]; try reflexivity.
    destruct (switchCase (getOpcode MI)); try reflexivity;
      unfold assert; rewrite Hnd; reflexivity.
  - intros Hdebug Hopc Hnew.
    assert (performCustomAdjustments MI NewOpc
            = Abort (AssertionFailed "Unexpected new opcode!")) as Hadj.
    { unfold performCustomAdjustments.
      rewrite (switchCase_VALIGN _ Hopc). unfold assert. rewrite Hdebug.
      rewrite !not_elem_of_cons in Hnew. destruct Hnew as (Hn1 & Hn2 & _).
      apply Z.eqb_neq in Hn1, Hn2. rewrite Hn1, Hn2. reflexivity. }
    split; [exact Hadj|].
    intros Hcand Hext. rewrite CompressEvexToVexImpl_eq, Hcand.
    unfold afterLookup. rewrite Hext. simpl. rewrite Hadj. reflexivity.
Qed.

(** *** Where a fault can come from *)

Lemma performCustomAdjustments_Abort MI NewOpc f :
  performCustomAdjustments MI NewOpc = Abort f →
  getOpcode MI ∈ case_labels ∧
  (f = AssertionFailed "Unexpected new opcode!" ∧ NDEBUG = false
   ∨ f = OperandOutOfRange ∨ f = WrongOperandAccessor).
Proof.
  assert (∀ i g, getOperand MI i = Abort g → g = OperandOutOfRange) as Hget.
  { intros i g. unfold getOperand.
    destruct ((0 <=? i) && (i <? Z.of_nat (getNumOperands MI)));
      [destruct (Operands MI !! Z.to_nat i)|]; congruence. }
  assert (∀ MO g, getImm MO = Abort g → g = WrongOperandAccessor) as Himm
    by (intros [] g; simpl; congruence).
  assert (∀ cond msg g, assert cond msg = Abort g →
                        g = AssertionFailed msg ∧ NDEBUG = false) as Hassert.
  { intros cond msg g. unfold assert.
    destruct NDEBUG; simpl; [discriminate|].
    destruct cond; [discriminate|]. intros [= <-]. auto. }
  unfold performCustomAdjustments.
  destruct (switchCase (getOpcode MI)) eqn:Hcase; [| | |discriminate];
    intros Hrun; (split; [apply switchCase_labelled; congruence|]).
  - destruct (assert _ _) eqn:Ha; simpl in Hrun;
      [|injection Hrun as <-; left; exact (Hassert _ _ _ Ha)].
    destruct (getOperand MI (lastExplicitIdx MI)) as [MO|g] eqn:Hop;
      simpl in Hrun;
      [|injection Hrun as <-; right; left; exact (Hget _ _ Hop)].
    destruct (getImm MO) as [v|g] eqn:Hv; simpl in Hrun;
      [|injection Hrun as <-; right; right; exact (Himm _ _ Hv)].
    apply getImm_Ok in Hv. subst MO.
    rewrite (setImm_immediate _ _ _ _ Hop) in Hrun. discriminate Hrun.
  - destruct (assert _ _) eqn:Ha; simpl in Hrun;
      [|injection Hrun as <-; left; exact (Hassert _ _ _ Ha)].
    destruct (getOperand MI (lastExplicitIdx MI)) as [MO|g] eqn:Hop;
      simpl in Hrun;
      [|injection Hrun as <-; right; left; exact (Hget _ _ Hop)].
    destruct (getImm MO) as [v|g] eqn:Hv; simpl in Hrun;
      [|injection Hrun as <-; right; right; exact (Himm _ _ Hv)].
    apply getImm_Ok in Hv. subst MO.
    rewrite (setImm_immediate _ _ _ _ Hop) in Hrun. discriminate Hrun.
  - destruct (getOperand MI (lastExplicitIdx MI)) as [MO|g] eqn:Hop;
      simpl in Hrun;
      [|injection Hrun as <-; right; left; exact (Hget _ _ Hop)].
    destruct (getImm MO) as [v|g] eqn:Hv; simpl in Hrun;
      [|injection Hrun as <-; right; right; exact (Himm _ _ Hv)].
    destruct (negb (Z.land v 15 =? v)); discriminate Hrun.
Qed.

(** X16. CompressEvexToVexImpl stops on a fault only after the lookup has
    produced a nonzero new opcode, and only for one of these reasons: the
    ZMM assertion (a build with assertions, a ZMM register among the
    explicit operands); for an opcode among the case labels, the new-opcode
    assertion or a last explicit operand that is missing or not an
    immediate; or TII not assigned.  An instruction that is not eligible
    or has no table entry never faults. *)
Theorem fault_inventory P MI f :
  CompressEvexToVexImpl P MI = Abort f →
  (∃ NewOpc, candidate P MI = Some NewOpc) ∧
  (f = AssertionFailed assertMsg ∧ NDEBUG = false ∧
     namesRegister isZMMReg MI = true
   ∨ getOpcode MI ∈ case_labels ∧
     (f = AssertionFailed "Unexpected new opcode!" ∧ NDEBUG = false
      ∨ f = OperandOutOfRange ∨ f = WrongOperandAccessor)
   ∨ f = NullInstrInfo ∧ TII P = None).
Proof.
  rewrite CompressEvexToVexImpl_eq.
  destruct (candidate P MI) as [NewOpc|]; [|discriminate].
  intros Hrun. split; [eauto|]. unfold afterLookup in Hrun.
  destruct (usesExtendedRegister MI) as [ext|g] eqn:Hext; simpl in Hrun.
  - destruct ext; [discriminate Hrun|].
    destruct (performCustomAdjustments MI NewOpc) as [[adjusted MI1]|g]
      eqn:Hadj; simpl in Hrun.
    + destruct adjusted; simpl in Hrun; [|discriminate Hrun].
      destruct (TII P) eqn:Htii; [discriminate Hrun|].
      injection Hrun as <-. right. right. auto.
    + injection Hrun as <-. right. left.
      exact (performCustomAdjustments_Abort _ _ _ Hadj).
  - injection Hrun as <-. left.
    unfold usesExtendedRegister in Hext.
    apply scanOperands_Abort in Hext. rewrite namesRegister_eq. exact Hext.
Qed.

End Properties.

(** ** The theorems at the sample values *)

#[local] Existing Instance Sample.flags.
#[local] Existing Instance Sample.enum.
#[local] Existing Instance Sample.debug.

(** Closes a goal that evaluation decides. *)
Ltac evaluate := vm_compute; first [reflexivity | discriminate].

Lemma sample_labels_distinct : NoDup case_labels.
Proof. compute_done. Qed.

Lemma sample_shortFormsNotEVEX :
  shortFormsNotEVEX Sample.pass0 Sample.instrInfo.
Proof.
  intros EvexOp VexOp Hlk _.
  assert (∃ Entry, Entry ∈ Sample.table128 ++ Sample.table256 ∧
                   uint16 (VexOpcode Entry) = VexOp) as (Entry & Hin & <-).
  { destruct Hlk as [Hlk | Hlk];
      apply fillTable_lookup_Some in Hlk;
      destruct Hlk as (Entry & Hin & _ & Hv);
      exists Entry; (split; [|exact Hv]); apply elem_of_app; auto. }
  unfold Sample.table128, Sample.table256 in Hin. simpl in Hin.
  rewrite !elem_of_cons, elem_of_nil in Hin.
  destruct Hin as [-> | [-> | [-> | [-> | [-> | [-> | [-> | []]]]]]]];
    evaluate.
Qed.

Lemma sample_tablesHoldNoZMMInstruction :
  tablesHoldNoZMMInstruction Sample.pass Sample.unit1.
Proof.
  intros MI Hin Hz.
  unfold instructions, Sample.unit1, Sample.function in Hin. simpl in Hin.
  rewrite !elem_of_cons, elem_of_nil in Hin.
  destruct Hin as [-> | [-> | [-> | [-> | [-> | [-> | [-> | [-> | [-> | []]]]]]]]]];
    try (vm_compute in Hz; discriminate Hz);
    split; evaluate.
Qed.

Lemma failed_attempt_witness :
  CompressEvexToVexImpl Sample.pass (Sample.round 0x17)
    = Ok (false, Sample.round 0x17) ∧
  CompressEvexToVexImpl Sample.pass Sample.add512
    = Ok (false, Sample.add512) ∧
  (∀ MI', CompressEvexToVexImpl Sample.pass Sample.addHigh = Ok (false, MI') →
          MI' = Sample.addHigh).
Proof.
  split; [|split].
  - apply (proj1 (failed_attempt_leaves_instruction_unchanged
                    Sample.pass (Sample.round 0x17))).
    apply (ImmediateRangeFailure _ _ 2023 0x17); evaluate.
  - apply (proj1 (failed_attempt_leaves_instruction_unchanged
                    Sample.pass Sample.add512)).
    apply WrongWidthClass. left. evaluate.
  - apply (proj2 (failed_attempt_leaves_instruction_unchanged
                    Sample.pass Sample.addHigh)).
Defined.

Lemma pass_idempotent_witness :
  let MF1 :=
    Sample.function
      [[committed Sample.add128 (Sample.desc 2100); Sample.add512;
        Sample.round 0x17;
        committed (Sample.round 0x07) (Sample.desc 2023)];
       [Sample.addMasked;
        committed (Sample.shuffle 0x31) (Sample.desc 2011);
        Sample.addHigh; Sample.addVex;
        committed Sample.add256 (Sample.desc 2101)]] in
  let P1 := setTII Sample.pass0 Sample.instrInfo in
  runOnMachineFunction Sample.pass0 Sample.unit1 = (P1, Ok (true, MF1)) ∧
  runOnMachineFunction P1 MF1 = (P1, Ok (false, MF1)).
Proof.
  intros MF1 P1.
  assert (runOnMachineFunction Sample.pass0 Sample.unit1
          = (P1, Ok (true, MF1))) as Hrun.
  { apply (runOnMachineFunction_eq Sample.pass0 Sample.unit1);
      [reflexivity | evaluate]. }
  split; [exact Hrun|].
  exact (proj1 (pass_idempotent Sample.pass0 Sample.unit1 P1 true MF1
                  sample_shortFormsNotEVEX Hrun)).
Defined.

Lemma width_dispatch_witness :
  CompressEvexToVexImpl Sample.pass Sample.sub128 = Ok (false, Sample.sub128) ∧
  EvexToVex256Table Sample.pass !! getOpcode Sample.sub128 = Some 2100 ∧
  (∀ P', CompressEvexToVexImpl P' Sample.add512 = Ok (false, Sample.add512)).
Proof.
  assert (widthClass Sample.sub128 = W128) as Hw128 by evaluate.
  assert (widthClass Sample.add512 = W512) as Hw512 by evaluate.
  split; [|split].
  - pose proof (width_class_decides_dispatch Sample.pass Sample.sub128) as Hw.
    rewrite Hw128 in Hw. apply (proj2 Hw). evaluate.
  - evaluate.
  - pose proof (width_class_decides_dispatch Sample.pass Sample.add512) as Hw.
    rewrite Hw512 in Hw. exact Hw.
Defined.

Lemma mask_witness :
  hasMask Sample.addMasked = true ∧
  EvexToVex128Table Sample.pass !! getOpcode Sample.addMasked = Some 2100 ∧
  CompressEvexToVexImpl Sample.pass Sample.addMasked
    = Ok (false, Sample.addMasked).
Proof.
  split; [evaluate|]. split; [evaluate|].
  apply (mask_or_broadcast_never_rewritten Sample.pass Sample.addMasked).
  left. evaluate.
Defined.

Lemma high_register_witness :
  candidate Sample.pass Sample.addHigh = Some 2100 ∧
  CompressEvexToVexImpl Sample.pass Sample.addHigh
    = Ok (false, Sample.addHigh) ∧
  CompressEvexToVexImpl Sample.pass Sample.addHighThenZMM
    = Ok (false, Sample.addHighThenZMM) ∧
  CompressEvexToVexImpl Sample.pass Sample.zmmThenHigh
    = Abort (AssertionFailed assertMsg).
Proof.
  assert (candidate Sample.pass Sample.addHigh = Some 2100) as Hc by evaluate.
  assert (namesRegister isHiRegIdx Sample.addHigh = true) as Hh by evaluate.
  assert (candidate Sample.pass Sample.addHighThenZMM = Some 2100) as Hc'
    by evaluate.
  assert (namesRegister isHiRegIdx Sample.addHighThenZMM = true) as Hh'
    by evaluate.
  assert (candidate Sample.pass Sample.zmmThenHigh = Some 2100) as Hc''
    by evaluate.
  assert (namesRegister isHiRegIdx Sample.zmmThenHigh = true) as Hh''
    by evaluate.
  split; [exact Hc|]. split; [|split].
  - apply (proj1 (proj2 (high_register_blocks_rewrite Sample.pass
                           Sample.addHigh 2100 Hc Hh))).
    right. evaluate.
  - apply (proj1 (proj2 (proj2 (high_register_blocks_rewrite Sample.pass
                                  Sample.addHighThenZMM 2100 Hc' Hh')))
             [] 116 [Sample.ZMM 0; Sample.XMM 3]);
      [reflexivity | reflexivity | right; reflexivity].
  - apply (proj2 (proj2 (proj2 (high_register_blocks_rewrite Sample.pass
                                  Sample.zmmThenHigh 2100 Hc'' Hh'')))
             [] 302 [Sample.XMM 20; Sample.XMM 3]);
      reflexivity.
Defined.

(** C5, as stated, fails in a build with assertions: an instruction of the
    128 table that names ZMM2 before XMM20 has its table hit and its high
    register, and the function stops on the assertion instead of
    returning false. *)
Lemma high_register_counterexample :
  candidate Sample.pass Sample.zmmThenHigh = Some 2100 ∧
  namesRegister isHiRegIdx Sample.zmmThenHigh = true ∧
  CompressEvexToVexImpl Sample.pass Sample.zmmThenHigh
    = Abort (AssertionFailed assertMsg) ∧
  CompressEvexToVexImpl Sample.pass Sample.zmmThenHigh
    ≠ Ok (false, Sample.zmmThenHigh).
Proof.
  assert (CompressEvexToVexImpl Sample.pass Sample.zmmThenHigh
          = Abort (AssertionFailed assertMsg)) as Hrun by evaluate.
  split; [evaluate|]. split; [evaluate|]. split; [exact Hrun|].
  rewrite Hrun. discriminate.
Qed.

Lemma rounding_witness :
  CompressEvexToVexImpl Sample.pass (Sample.round 0x17)
    = Ok (false, Sample.round 0x17) ∧
  CompressEvexToVexImpl Sample.pass (Sample.round 0x07)
    = Ok (true, committed (Sample.round 0x07) (Sample.desc 2023)).
Proof.
  assert (∀ v, getOpcode (Sample.round v) ∈ VRNDSCALE_cases) as Hopc
    by (intros v; compute_done).
  assert (∀ v, candidate Sample.pass (Sample.round v) = Some 2023) as Hc
    by (intros v; evaluate).
  assert (∀ v, usesExtendedRegister (Sample.round v) = Ok false) as Hext
    by (intros v; evaluate).
  assert (∀ v, lastImmediate (Sample.round v) v) as Himm
    by (intros v; reflexivity).
  assert (TII Sample.pass = Some Sample.instrInfo) as Htii by reflexivity.
  split.
  - apply (proj1 (rounding_immediate_validation Sample.pass
                    (Sample.round 0x17) 2023 0x17 sample_labels_distinct
                    (Hopc _) (Hc _) (Hext _) (Himm _))).
    exists 4. split; [lia | reflexivity].
  - apply (proj2 (rounding_immediate_validation Sample.pass
                    (Sample.round 0x07) 2023 0x07 sample_labels_distinct
                    (Hopc _) (Hc _) (Hext _) (Himm _))
                 ltac:(lia) Sample.instrInfo Htii).
Defined.

Lemma lane_select_witness :
  performCustomAdjustments (Sample.shuffle 2) 2011
    = Ok (true, withOperand (Sample.shuffle 2) 3 (MO_Immediate 0x30)) ∧
  CompressEvexToVexImpl Sample.pass (Sample.shuffle 3)
    = Ok (true, committed (withOperand (Sample.shuffle 3) 3
                                       (MO_Immediate 0x31))
                          (Sample.desc 2011)).
Proof.
  assert (∀ v, getOpcode (Sample.shuffle v) ∈ VSHUF_cases) as Hopc
    by (intros v; compute_done).
  assert (∀ v, lastImmediate (Sample.shuffle v) v) as Himm
    by (intros v; reflexivity).
  assert (NDEBUG = true
          ∨ 2011 ∈ [X86.VPERM2F128rr; X86.VPERM2I128rr;
                    X86.VPERM2F128rm; X86.VPERM2I128rm]) as Hassert
    by (right; compute_done).
  assert (candidate Sample.pass (Sample.shuffle 3) = Some 2011) as Hc
    by evaluate.
  assert (usesExtendedRegister (Sample.shuffle 3) = Ok false) as Hext
    by evaluate.
  assert (TII Sample.pass = Some Sample.instrInfo) as Htii by reflexivity.
  split.
  - exact (proj1 (lane_select_remap (Sample.shuffle 2) 2011 2
                    sample_labels_distinct (Hopc _) (Himm _)
                    ltac:(compute_done) Hassert)).
  - destruct (lane_select_remap (Sample.shuffle 3) 2011 3
                sample_labels_distinct (Hopc _) (Himm _)
                ltac:(compute_done) Hassert) as (_ & _ & _ & Hrun & _).
    exact (Hrun Sample.pass Sample.instrInfo Hc Hext Htii).
Defined.

(** C7, as stated, fails at v = 2: the rewritten shuffle carries 0x30,
    not 0x28. *)
Lemma lane_select_counterexample :
  ∃ MI', CompressEvexToVexImpl Sample.pass (Sample.shuffle 2) = Ok (true, MI') ∧
         Operands MI' !! 3%nat = Some (MO_Immediate 0x30) ∧
         Operands MI' !! 3%nat ≠ Some (MO_Immediate 0x28).
Proof.
  exists (committed (Sample.shuffle 0x30) (Sample.desc 2011)).
  split; [evaluate|].
  split; [reflexivity | discriminate].
Qed.

Lemma rewrite_frame_witness :
  CompressEvexToVexImpl Sample.pass (Sample.align 3)
    = Ok (true, committed (Sample.align 24) (Sample.desc 2001)) ∧
  ∃ NewOpc tii,
    selectedEntry Sample.pass (Sample.align 3) = Some NewOpc ∧
    MCID (committed (Sample.align 24) (Sample.desc 2001)) = get tii NewOpc.
Proof.
  assert (CompressEvexToVexImpl Sample.pass (Sample.align 3)
          = Ok (true, committed (Sample.align 24) (Sample.desc 2001)))
    as Hrun by evaluate.
  split; [exact Hrun|].
  destruct (rewrite_frame Sample.pass (Sample.align 3) _ Hrun)
    as (NewOpc & tii & Hsel & _ & _ & Hdesc & _).
  exists NewOpc, tii. split; [exact Hsel | exact Hdesc].
Defined.

Lemma zmm_assertion_witness :
  (namesRegister isZMMReg Sample.add128 = false ∧
   usesExtendedRegister Sample.add128
     = Ok (namesRegister isHiRegIdx Sample.add128)) ∧
  CompressEvexToVexImpl Sample.pass Sample.addZMM
    = Abort (AssertionFailed assertMsg).
Proof.
  assert (candidate Sample.pass Sample.add128 = Some 2100) as Hc by evaluate.
  assert (candidate Sample.pass Sample.addZMM = Some 2100) as Hc' by evaluate.
  assert (Sample.add128 ∈ instructions Sample.unit1) as Hin
    by (apply list_elem_of_here).
  split.
  - exact (proj1 (zmm_assertion Sample.pass Sample.unit1 Sample.add128 2100
                    Hc) sample_tablesHoldNoZMMInstruction Hin).
  - destruct (proj2 (zmm_assertion Sample.pass Sample.unit1 Sample.addZMM
                       2100 Hc')
                [Sample.XMM 1] 302 [Sample.XMM 3]) as (_ & Hrun & _);
      [reflexivity .. | exact Hrun].
Defined.

(** C9, as stated, fails in a build with assertions: an instruction of the
    128 table that names ZMM0 behind XMM16 reaches the register check, and
    the outcome is the ordinary result false, not a fault. *)
Lemma zmm_violation_counterexample :
  candidate Sample.pass Sample.addHighThenZMM = Some 2100 ∧
  namesRegister isZMMReg Sample.addHighThenZMM = true ∧
  usesExtendedRegister Sample.addHighThenZMM = Ok true ∧
  CompressEvexToVexImpl Sample.pass Sample.addHighThenZMM
    = Ok (false, Sample.addHighThenZMM).
Proof. repeat split; evaluate. Qed.

Lemma zero_entry_witness :
  selectedEntry Sample.passZero Sample.sub128 = Some 0 ∧
  CompressEvexToVexImpl Sample.passZero Sample.sub128
    = Ok (false, Sample.sub128) ∧
  CompressEvexToVexImpl Sample.pass Sample.sub128
    = CompressEvexToVexImpl Sample.passZero Sample.sub128.
Proof.
  assert (selectedEntry Sample.passZero Sample.sub128 = Some 0) as Hzero
    by evaluate.
  assert (selectedEntry Sample.pass Sample.sub128 = None) as Hnone
    by evaluate.
  split; [exact Hzero|].
  destruct (proj1 (zero_entry_acts_as_miss Sample.passZero Sample.sub128)
              Hzero) as [Hrun Hmiss].
  split; [exact Hrun|]. exact (Hmiss Sample.pass Hnone).
Defined.

(** *** The further properties at the sample values *)

Lemma sample_run :
  runOnMachineFunction Sample.pass0 Sample.unit1
  = (setTII Sample.pass0 Sample.instrInfo, Ok (true, Sample.unit1Compressed)).
Proof.
  apply (runOnMachineFunction_eq Sample.pass0 Sample.unit1);
    [reflexivity | evaluate].
Qed.

Lemma run_is_pointwise_witness :
  Forall2 (Forall2 (compressesTo (setTII Sample.pass0 Sample.instrInfo)))
          (Blocks Sample.unit1) (Blocks Sample.unit1Compressed).
Proof.
  exact (proj1 (proj2 (run_is_pointwise Sample.pass0 Sample.unit1 _ _ _
                         eq_refl sample_run))).
Defined.

Lemma run_returns_iff_witness :
  (∃ Changed MF1,
     snd (runOnMachineFunction Sample.pass0 Sample.unitNoAVX)
     = Ok (Changed, MF1)) ∧
  ¬ (∃ Changed MF1,
       snd (runOnMachineFunction Sample.pass0 Sample.unitFault)
       = Ok (Changed, MF1)).
Proof.
  split.
  - apply (proj2 (run_returns_iff Sample.pass0 Sample.unitNoAVX)).
    left. reflexivity.
  - intros Hret.
    apply (proj1 (run_returns_iff Sample.pass0 Sample.unitFault)) in Hret.
    destruct Hret as [Hno | Hall]; [discriminate Hno|].
    apply Forall_cons in Hall. destruct Hall as [_ Hall].
    apply Forall_cons in Hall. destruct Hall as [[res Hrun] _].
    assert (CompressEvexToVexImpl
              (setTII Sample.pass0
                 (getInstrInfo (getSubtarget Sample.unitFault)))
              Sample.addZMM = Abort (AssertionFailed assertMsg)) as Hfault
      by evaluate.
    rewrite Hfault in Hrun. discriminate Hrun.
Defined.

Lemma run_false_witness :
  runOnMachineFunction Sample.pass0 Sample.unitQuiet
  = (setTII Sample.pass0 Sample.instrInfo, Ok (false, Sample.unitQuiet)) ∧
  Sample.unitQuiet = Sample.unitQuiet.
Proof.
  assert (runOnMachineFunction Sample.pass0 Sample.unitQuiet
          = (setTII Sample.pass0 Sample.instrInfo,
             Ok (false, Sample.unitQuiet))) as Hrun.
  { apply (runOnMachineFunction_eq Sample.pass0 Sample.unitQuiet);
      [reflexivity | evaluate]. }
  split; [exact Hrun|].
  exact (run_false_means_untouched Sample.pass0 Sample.unitQuiet _ _ Hrun).
Defined.

Lemma run_true_witness : Sample.unit1Compressed ≠ Sample.unit1.
Proof.
  exact (run_true_means_changed Sample.pass0 Sample.unit1 _ _
           sample_shortFormsNotEVEX sample_run).
Defined.


Lemma fillTable_last_write_witness :
  fillTable Sample.tableDup !! 1100 = Some 2105 ∧
  fillTable Sample.tableDup !! 1102 = None.
Proof.
  split.
  - rewrite (proj1 (fillTable_last_write_wins Sample.tableDup 1100)).
    evaluate.
  - apply (proj2 (fillTable_last_write_wins Sample.tableDup 1102)).
    intros Entry Hin. unfold Sample.tableDup in Hin.
    rewrite !elem_of_cons, elem_of_nil in Hin.
    destruct Hin as [-> | [-> | [-> | []]]]; evaluate.
Defined.

Lemma fillTable_distinct_witness :
  fillTable Sample.table128 !! 1003 = Some 2001.
Proof.
  apply (proj2 (fillTable_distinct_keys Sample.table128 1003 2001
                  ltac:(compute_done))).
  exists {| EvexOpcode := 1003; VexOpcode := 2001 |}.
  split; [|split; reflexivity].
  unfold Sample.table128. rewrite !elem_of_cons. auto.
Defined.

Lemma usesExtendedRegister_release_witness :
  namesRegister isZMMReg Sample.addZMM = true ∧
  usesExtendedRegister (build := Sample.release) Sample.addZMM = Ok false.
Proof.
  split; [evaluate|].
  exact (proj2 (proj2 (usesExtendedRegister_characterised
                         (build := Sample.release) Sample.addZMM))
           (or_introl eq_refl)).
Defined.

Lemma scan_explicit_witness :
  usesExtendedRegister
    (Sample.instr Sample.VADDPSZ128rr
       [Sample.XMM 1; Sample.XMM 2; Sample.XMM 3; Sample.XMM 20])
  = usesExtendedRegister Sample.add128.
Proof.
  apply (proj2 (scan_sees_explicit_registers_only Sample.add128)
           [Sample.XMM 20]).
  vm_compute. lia.
Defined.

Lemma align_scale_witness :
  CompressEvexToVexImpl Sample.pass (Sample.align 3)
    = Ok (true, committed (withOperand (Sample.align 3) 3 (MO_Immediate 24))
                          (Sample.desc 2001)) ∧
  CompressEvexToVexImpl Sample.passD (Sample.alignD 3)
    = Ok (true, committed (withOperand (Sample.alignD 3) 3 (MO_Immediate 12))
                          (Sample.desc 2002)).
Proof.
  assert (∀ n, n ∈ [2001; 2002] →
               NDEBUG = true ∨ n ∈ [X86.VPALIGNRrri; X86.VPALIGNRrmi])
    as Hassert by (intros n Hn; right; exact Hn).
  assert (candidate Sample.pass (Sample.align 3) = Some 2001) as Hc
    by evaluate.
  assert (candidate Sample.passD (Sample.alignD 3) = Some 2002) as Hc'
    by evaluate.
  assert (usesExtendedRegister (Sample.align 3) = Ok false) as He
    by evaluate.
  assert (usesExtendedRegister (Sample.alignD 3) = Ok false) as He'
    by evaluate.
  split.
  - apply (proj1 (align_scale_transform Sample.pass (Sample.align 3) 2001
                    Sample.instrInfo 3 sample_labels_distinct eq_refl
                    (Hassert 2001 ltac:(compute_done)) Hc He eq_refl));
      [compute_done | lia].
  - apply (proj2 (align_scale_transform Sample.passD (Sample.alignD 3) 2002
                    Sample.instrInfo 3 sample_labels_distinct eq_refl
                    (Hassert 2002 ltac:(compute_done)) Hc' He' eq_refl));
      [compute_done | lia].
Defined.

Lemma lane_select_two_bits_witness :
  performCustomAdjustments (Sample.shuffle 0xff) 2011
  = Ok (true, withOperand (Sample.shuffle 0xff) 3 (MO_Immediate 0x31)).
Proof.
  exact (proj1 (lane_select_reads_two_bits (Sample.shuffle 0xff) 2011 0xff
                  sample_labels_distinct ltac:(compute_done) eq_refl
                  ltac:(right; compute_done))).
Defined.

Lemma rounding_exact_witness :
  CompressEvexToVexImpl Sample.pass (Sample.round 0x100)
    = Ok (false, Sample.round 0x100) ∧
  CompressEvexToVexImpl Sample.pass (Sample.round (-1))
    = Ok (false, Sample.round (-1)) ∧
  CompressEvexToVexImpl Sample.pass (Sample.round 15)
    = Ok (true, committed (Sample.round 15) (Sample.desc 2023)).
Proof.
  assert (∀ v, getOpcode (Sample.round v) ∈ VRNDSCALE_cases) as Hopc
    by (intros v; compute_done).
  assert (∀ v, candidate Sample.pass (Sample.round v) = Some 2023) as Hc
    by (intros v; evaluate).
  assert (∀ v, usesExtendedRegister (Sample.round v) = Ok false) as He
    by (intros v; evaluate).
  split; [|split].
  - exact (rounding_accepts_exactly_0_to_15 Sample.pass (Sample.round 0x100)
             2023 Sample.instrInfo 0x100 sample_labels_distinct (Hopc _)
             eq_refl (Hc _) (He _) eq_refl).
  - exact (rounding_accepts_exactly_0_to_15 Sample.pass (Sample.round (-1))
             2023 Sample.instrInfo (-1) sample_labels_distinct (Hopc _)
             eq_refl (Hc _) (He _) eq_refl).
  - exact (rounding_accepts_exactly_0_to_15 Sample.pass (Sample.round 15)
             2023 Sample.instrInfo 15 sample_labels_distinct (Hopc _)
             eq_refl (Hc _) (He _) eq_refl).
Defined.

Lemma plain_swap_witness :
  CompressEvexToVexImpl Sample.pass Sample.add128
    = Ok (true, committed Sample.add128 (Sample.desc 2100)) ∧
  CompressEvexToVexImpl (build := Sample.release) Sample.pass Sample.addZMM
    = Ok (true, committed Sample.addZMM (Sample.desc 2100)).
Proof.
  assert (getOpcode Sample.add128 ∉ case_labels) as Hopc by compute_done.
  assert (candidate Sample.pass Sample.add128 = Some 2100) as Hc by evaluate.
  assert (candidate Sample.pass Sample.addZMM = Some 2100) as Hc'
    by evaluate.
  assert (namesRegister isHiRegIdx Sample.add128 = false) as Hhi
    by evaluate.
  assert (namesRegister isHiRegIdx Sample.addZMM = false) as Hhi'
    by evaluate.
  assert (namesRegister isZMMReg Sample.add128 = false) as Hz by evaluate.
  split.
  - exact (proj1 (plain_opcode_swap Sample.pass Sample.add128 2100
                    Sample.instrInfo Hopc Hc Hhi (or_intror Hz) eq_refl)).
  - exact (proj1 (plain_opcode_swap (build := Sample.release) Sample.pass
                    Sample.addZMM 2100 Sample.instrInfo Hopc Hc' Hhi'
                    (or_introl eq_refl) eq_refl)).
Defined.

Lemma new_opcode_witness :
  performCustomAdjustments (Sample.align 3) 2100
    = Abort (AssertionFailed "Unexpected new opcode!") ∧
  CompressEvexToVexImpl Sample.passBad (Sample.align 3)
    = Abort (AssertionFailed "Unexpected new opcode!") ∧
  performCustomAdjustments (build := Sample.release) (Sample.align 3) 2100
    = performCustomAdjustments (build := Sample.release) (Sample.align 3) 2001.
Proof.
  assert (candidate Sample.passBad (Sample.align 3) = Some 2100) as Hc
    by evaluate.
  assert (usesExtendedRegister (Sample.align 3) = Ok false) as He
    by evaluate.
  destruct (proj2 (new_opcode_only_asserted (build := Sample.debug)
                     Sample.passBad (Sample.align 3) 2100) eq_refl ltac:(compute_done) ltac:(compute_done))
    as [Hadj Hrun].
  split; [exact Hadj|]. split; [exact (Hrun Hc He)|].
  exact (proj1 (new_opcode_only_asserted (build := Sample.release)
                  Sample.pass (Sample.align 3) 2001) 2100
           (or_introl eq_refl)).
Defined.

Lemma fault_inventory_witness :
  CompressEvexToVexImpl Sample.pass Sample.addZMM
    = Abort (AssertionFailed assertMsg) ∧
  ∃ NewOpc, candidate Sample.pass Sample.addZMM = Some NewOpc.
Proof.
  assert (CompressEvexToVexImpl Sample.pass Sample.addZMM
          = Abort (AssertionFailed assertMsg)) as Hrun by evaluate.
  split; [exact Hrun|].
  exact (proj1 (fault_inventory Sample.pass Sample.addZMM _ Hrun)).
Defined.
